(** * xhs-likes-manager: collection, classification and review pipeline

    A shallow embedding of the Python package [xhs_likes_manager]
    (tagger.py, fetcher.py, reviewer.py, unlike.py, config.py, utils.py)
    and the properties its design document states about it.

    Conventions of the embedding.
    - A Python [str] is a [string] holding its UTF-8 bytes.  Substring tests
      on UTF-8 bytes agree with substring tests on code points, and the byte
      order of UTF-8 is the code point order.
    - Module [Py] has [str.lower], [str.strip] and [str.split] as they are
      on ASCII text: the case mapping of A-Z and ASCII whitespace; bytes
      from 128 upwards are kept, which is what Python does on caseless
      scripts such as CJK.  What these operations do to other cased letters
      and to other whitespace depends on the Unicode tables of the
      interpreter: the properties that depend on it are stated over module
      [Generic], which follows the same code and takes the three operations
      of the interpreter as a parameter.
    - [now_cn()] reads the clock: every function that calls it takes the
      reading as an argument.
    - [print] is not modelled, nor is [export_markdown], which writes a
      markdown file that no function of the package reads back.
    - Persistence is modelled twice.  The pipeline runs over a store of
      documents, where a file is the document [json.loads] reads from it
      ([load_db], [save_db]).  Module [Disk] models the same files as
      bytes, with [json.dumps], [json.loads] and the steps of
      [Path.write_text], to study what a crash during a save leaves. *)

From Stdlib Require Import String Ascii List Bool Arith ZArith Lia DecimalString.
From stdpp Require Import gmap strings list fin_maps.

Open Scope string_scope.
Open Scope list_scope.

(** ** Python strings *)

Module Py.

Definition is_upper (c : ascii) : bool :=
  (65 <=? nat_of_ascii c)%nat && (nat_of_ascii c <=? 90)%nat.

Definition lower_char (c : ascii) : ascii :=
  if is_upper c then ascii_of_nat (nat_of_ascii c + 32) else c.

(** [s.lower()] *)
Fixpoint lower (s : string) : string :=
  match s with
  | EmptyString => EmptyString
  | String c s' => String (lower_char c) (lower s')
  end.

(** [sub in s] *)
Fixpoint contains (sub s : string) : bool :=
  String.prefix sub s ||
  match s with
  | EmptyString => false
  | String _ s' => contains sub s'
  end.

(** [s.startswith(p)] *)
Definition startswith (s p : string) : bool := String.prefix p s.

(** [a or b] on strings: the empty string is falsy. *)
Definition str_or (a b : string) : string :=
  match a with
  | EmptyString => b
  | _ => a
  end.

(** [bool(s)] on a string. *)
Definition truthy (s : string) : bool :=
  match s with
  | EmptyString => false
  | _ => true
  end.

(** A byte of the form 10xxxxxx continues a UTF-8 character. *)
Definition is_continuation (c : ascii) : bool :=
  (128 <=? nat_of_ascii c)%nat && (nat_of_ascii c <? 192)%nat.

(** [s[:n]]: the first [n] characters (code points) of [s]. *)
Fixpoint take_chars (n : nat) (s : string) : string :=
  match s with
  | EmptyString => EmptyString
  | String c s' =>
      if is_continuation c then String c (take_chars n s')
      else match n with
           | 0 => EmptyString
           | S n' => String c (take_chars n' s')
           end
  end.

(** [c.isspace()] on ASCII. *)
Definition is_space (c : ascii) : bool :=
  let n := nat_of_ascii c in
  (n =? 32)%nat || ((9 <=? n) && (n <=? 13))%nat || ((28 <=? n) && (n <=? 31))%nat.

(** [s.lstrip()] *)
Fixpoint lstrip (s : string) : string :=
  match s with
  | EmptyString => EmptyString
  | String c s' => if is_space c then lstrip s' else s
  end.

(** [s.rstrip()] *)
Fixpoint rstrip (s : string) : string :=
  match s with
  | EmptyString => EmptyString
  | String c s' =>
      match rstrip s' with
      | EmptyString => if is_space c then EmptyString else String c EmptyString
      | r => String c r
      end
  end.

(** [s.strip()] *)
Definition strip (s : string) : string := rstrip (lstrip s).

(** The first whitespace-delimited word of [s] and what follows it. *)
Fixpoint span_word (s : string) : string * string :=
  match s with
  | EmptyString => (EmptyString, EmptyString)
  | String c s' =>
      if is_space c then (EmptyString, s)
      else let '(w, r) := span_word s' in (String c w, r)
  end.

(** [s.split(maxsplit=1)]: split once, on the first run of whitespace. *)
Definition split_once (s : string) : list string :=
  match lstrip s with
  | EmptyString => []
  | s1 =>
      let '(w, r) := span_word s1 in
      match lstrip r with
      | EmptyString => [w]
      | r' => [w; r']
      end
  end.

(** [s.split(sep)] for a one-character separator: the pieces between the
    separators, empty ones included. *)
Fixpoint split_char (sep : ascii) (s : string) : list string :=
  match s with
  | EmptyString => [EmptyString]
  | String c s' =>
      if Ascii.eqb c sep then EmptyString :: split_char sep s'
      else match split_char sep s' with
           | [] => [String c EmptyString]
           | p :: ps => String c p :: ps
           end
  end.

(** Insertion into a duplicate-free list in ascending order. *)
Fixpoint insert_sorted (x : string) (l : list string) : list string :=
  match l with
  | [] => [x]
  | y :: l' =>
      match String.compare x y with
      | Lt => x :: l
      | Eq => l
      | Gt => y :: insert_sorted x l'
      end
  end.

(** [sorted(set(l))] *)
Definition sorted_set (l : list string) : list string :=
  foldr insert_sorted [] l.

(** What [sub in s] decides. *)
Definition occurs_in (sub s : string) : Prop :=
  exists pre post : string, s = pre +:+ sub +:+ post.

(** "[kw] occurs in [s], whatever the case of the letters". *)
Definition occurs_ci (kw s : string) : Prop :=
  occurs_in (lower kw) (lower s).

End Py.

(** ** Data model *)

(** A tag rule of the configuration: [{"name": ..., "keywords": [...]}]. *)
Module Rule.

Record t : Type := mk { name : string; keywords : list string }.

End Rule.

(** A raw record of the captured API responses.  Every key is read with
    [note.get(key, default)], so a missing string is the empty string; the
    keys of [note["user"]] are flattened.  [note["cover"]] is used only when
    it is a dict. *)
Module Note.

Inductive cover_t : Type :=
| CoverDict (url : string)
| CoverOther.

Record t : Type := mk {
  note_id : string;
  display_title : string;
  title : string;
  user_nickname : string;
  user_user_id : string;
  cover : cover_t;
  type : string;
  xsec_token : string
}.

End Note.

(** An item of a collection: the keys the pipeline reads and writes.
    [removed] and [removed_at] are [None] while the dict has no such key
    (the merge creates items without them). *)
Module Item.

Record t : Type := mk {
  id : string;
  title : string;
  author : string;
  author_id : string;
  url : string;
  cover : string;
  type : string;
  tags : list string;
  desc : string;
  note : string;
  reviewed : bool;
  xsec_token : string;
  first_seen : string;
  saved_at : string;
  removed : option bool;
  removed_at : option string
}.

(** [item["tags"] = v] *)
Definition set_tags (v : list string) (it : t) : t :=
  mk (id it) (title it) (author it) (author_id it) (url it) (cover it)
     (type it) v (desc it) (note it) (reviewed it) (xsec_token it)
     (first_seen it) (saved_at it) (removed it) (removed_at it).

(** [item["note"] = v] *)
Definition set_note (v : string) (it : t) : t :=
  mk (id it) (title it) (author it) (author_id it) (url it) (cover it)
     (type it) (tags it) (desc it) v (reviewed it) (xsec_token it)
     (first_seen it) (saved_at it) (removed it) (removed_at it).

(** [item["reviewed"] = v] *)
Definition set_reviewed (v : bool) (it : t) : t :=
  mk (id it) (title it) (author it) (author_id it) (url it) (cover it)
     (type it) (tags it) (desc it) (note it) v (xsec_token it)
     (first_seen it) (saved_at it) (removed it) (removed_at it).

(** [item["removed"] = v; item["removed_at"] = at] *)
Definition set_removed (v : bool) (at_ : string) (it : t) : t :=
  mk (id it) (title it) (author it) (author_id it) (url it) (cover it)
     (type it) (tags it) (desc it) (note it) (reviewed it) (xsec_token it)
     (first_seen it) (saved_at it) (Some v) (Some at_).

(** [bool(item.get("removed"))] *)
Definition is_removed (it : t) : bool :=
  match removed it with
  | Some b => b
  | None => false
  end.

End Item.

(** A collection: [{"items": [...], "last_fetch": ...}]. *)
Module Db.

Record t : Type := mk { items : list Item.t; last_fetch : option string }.

(** What [load_db] returns when the file does not exist. *)
Definition empty : t := mk [] None.

End Db.

(** The review session state: the document of [review_state.json]. *)
Module State.

Record t : Type := mk {
  mode : string;
  reviewed_ids : list string;
  session_start : option string;
  last_shown_id : option string
}.

(** What [_load_state] returns when the file does not exist. *)
Definition initial : t := mk "ai" [] None None.

End State.

(** The part of [Config] the pipeline reads; paths are strings. *)
Module Config.

Record t : Type := mk {
  xhs_base_url : string;
  tag_rules : list Rule.t;
  likes_file : string;
  bookmarks_file : string;
  review_state_file : string
}.

End Config.

(** ** Store (utils.py, reviewer.py) *)

(** The files of the data directory, each as the document it holds.  The
    collections and the session state are read by loaders of their own, and
    are kept apart. *)
Record World : Type := mkWorld {
  db_files : gmap string Db.t;
  state_files : gmap string State.t
}.

Definition load_db (path : string) (w : World) : Db.t :=
  match db_files w !! path with
  | Some data => data
  | None => Db.empty
  end.

Definition save_db (path : string) (data : Db.t) (w : World) : World :=
  mkWorld (<[path := data]> (db_files w)) (state_files w).

Definition _load_state (config : Config.t) (w : World) : State.t :=
  match state_files w !! Config.review_state_file config with
  | Some state => state
  | None => State.initial
  end.

Definition _save_state (config : Config.t) (state : State.t) (w : World) : World :=
  mkWorld (db_files w) (<[Config.review_state_file config := state]> (state_files w)).

(** ** Classifier (tagger.py) *)

(** The tag of an item that no rule matches. *)
Definition fallback_tag : string := "其他".

(** The inner loop of [auto_tag]: is some keyword of the rule in [combined]?
    The loop stops at the first one found. *)
Fixpoint any_keyword_in (combined : string) (kws : list string) : bool :=
  match kws with
  | [] => false
  | kw :: kws' =>
      if Py.contains (Py.lower kw) combined then true
      else any_keyword_in combined kws'
  end.

(** The outer loop of [auto_tag], with the list [tags] built so far. *)
Fixpoint auto_tag_loop (combined : string) (tag_rules : list Rule.t)
    (tags : list string) : list string :=
  match tag_rules with
  | [] => tags
  | rule :: rest =>
      if any_keyword_in combined (Rule.keywords rule)
      then auto_tag_loop combined rest (tags ++ [Rule.name rule])
      else auto_tag_loop combined rest tags
  end.

Definition auto_tag (title text : string) (tag_rules : list Rule.t)
    : list string :=
  let combined := Py.lower (title +:+ " " +:+ text) in
  match auto_tag_loop combined tag_rules [] with
  | [] => [fallback_tag]
  | tags => tags
  end.

(** The loop of [tag_all] over [db["items"]]: the items after the pass and
    the number of items it tagged. *)
Fixpoint tag_all_loop (tag_rules : list Rule.t) (items : list Item.t)
    : list Item.t * nat :=
  match items with
  | [] => ([], 0)
  | item :: rest =>
      let '(rest', tagged_count) := tag_all_loop tag_rules rest in
      match Item.tags item with
      | [] =>
          (Item.set_tags
             (auto_tag (Item.title item) (Item.desc item) tag_rules) item
             :: rest',
           S tagged_count)
      | _ :: _ => (item :: rest', tagged_count)
      end
  end.

Definition tag_all (config : Config.t) (collection : string) (w : World)
    : World :=
  let db_path :=
    if String.eqb collection "likes" then Config.likes_file config
    else Config.bookmarks_file config in
  let db := load_db db_path w in
  let '(items', _) := tag_all_loop (Config.tag_rules config) (Db.items db) in
  save_db db_path (Db.mk items' (Db.last_fetch db)) w.

(** ** Merge engine (fetcher.py) *)

(** The last loop of [_fetch_by_tab] ("# Deduplicate"), with the set [seen]
    and the list [unique] built so far. *)
Fixpoint dedup_loop (all_notes : list Note.t) (seen : gset string)
    (unique : list Note.t) : list Note.t :=
  match all_notes with
  | [] => unique
  | note :: rest =>
      let nid := Note.note_id note in
      if Py.truthy nid && negb (bool_decide (nid ∈ seen))
      then dedup_loop rest ({[nid]} ∪ seen) (unique ++ [note])
      else dedup_loop rest seen unique
  end.

(** What [_fetch_by_tab] returns for the notes it captured. *)
Definition deduplicate (all_notes : list Note.t) : list Note.t :=
  dedup_loop all_notes ∅ [].

(** The item [_process_notes] builds for a note. *)
Definition new_item (config : Config.t) (timestamp : string) (note : Note.t)
    : Item.t :=
  let nid := Note.note_id note in
  let display_title :=
    Py.str_or (Note.display_title note)
      (Py.str_or (Note.title note) ("笔记 " +:+ Py.take_chars 8 nid)) in
  {| Item.id := nid;
     Item.title := display_title;
     Item.author := Note.user_nickname note;
     Item.author_id := Note.user_user_id note;
     Item.url := Config.xhs_base_url config +:+ "/explore/" +:+ nid;
     Item.cover := match Note.cover note with
                   | Note.CoverDict url => url
                   | Note.CoverOther => EmptyString
                   end;
     Item.type := Note.type note;
     Item.tags := [];
     Item.desc := EmptyString;
     Item.note := EmptyString;
     Item.reviewed := false;
     Item.xsec_token := Note.xsec_token note;
     Item.first_seen := timestamp;
     Item.saved_at := timestamp;
     Item.removed := None;
     Item.removed_at := None |}.

(** The loop of [_process_notes] over [notes], with [db["items"]] and
    [new_count] as they are so far.  [existing_ids] is never updated. *)
Fixpoint process_notes_loop (config : Config.t) (timestamp : string)
    (existing_ids : gset string) (notes : list Note.t)
    (items : list Item.t) (new_count : nat) : list Item.t * nat :=
  match notes with
  | [] => (items, new_count)
  | note :: rest =>
      if bool_decide (Note.note_id note ∈ existing_ids)
      then process_notes_loop config timestamp existing_ids rest items new_count
      else process_notes_loop config timestamp existing_ids rest
             (items ++ [new_item config timestamp note]) (S new_count)
  end.

(** [_process_notes(notes, config, db_path, md_path, md_title)], run when
    the clock reads [timestamp]: the world it leaves and the count it
    returns. *)
Definition _process_notes (notes : list Note.t) (config : Config.t)
    (db_path : string) (timestamp : string) (w : World) : World * nat :=
  let db := load_db db_path w in
  let existing_ids : gset string := list_to_set (Item.id <$> Db.items db) in
  let '(items', new_count) :=
    process_notes_loop config timestamp existing_ids notes (Db.items db) 0 in
  (save_db db_path (Db.mk items' (Some timestamp)) w, new_count).

(** ** Review session (reviewer.py) *)

(** The tag that the modes ["ai"] and ["other"] filter on. *)
Definition primary_tag : string := "AI/LLM".

(** The loop of [_get_items], from index [i] on. *)
Fixpoint get_items_from (i : nat) (items : list Item.t) (mode : string)
    (reviewed_ids : gset string) : list (nat * Item.t) :=
  match items with
  | [] => []
  | item :: rest =>
      let later := get_items_from (S i) rest mode reviewed_ids in
      if bool_decide (Item.id item ∈ reviewed_ids) then later
      else if String.eqb mode "ai"
              && negb (bool_decide (primary_tag ∈ Item.tags item)) then later
      else if String.eqb mode "other"
              && bool_decide (primary_tag ∈ Item.tags item) then later
      else (i, item) :: later
  end.

Definition _get_items (data : Db.t) (mode : string)
    (reviewed_ids : gset string) : list (nat * Item.t) :=
  get_items_from 0 (Db.items data) mode reviewed_ids.

(** The variables of the loop of [review].  An entry [(idx, item)] of the
    list of [_get_items] refers to the object [data["items"][idx]]: the
    loop reads and writes that object, which is [Db.items data !! idx]
    here. *)
Record Session : Type := mkSession {
  pos : nat;
  reviewed : gset string;
  data : Db.t
}.

(** [data["items"][idx] = item] *)
Definition put_item (idx : nat) (item : Item.t) (data : Db.t) : Db.t :=
  Db.mk (<[idx := item]> (Db.items data)) (Db.last_fetch data).

(** What one turn of the loop does: go on with new variables, leave the loop
    ([break]), or raise. *)
Inductive Turn : Type :=
| Next (s : Session)
| Break
| Raise.

(** [[t.strip() for t in arg.split(",") if t.strip()]] *)
Definition parse_tags (arg : string) : list string :=
  Py.strip <$> List.filter (fun t => Py.truthy (Py.strip t))
                 (Py.split_char "," arg).

(** One turn of the loop on the entry [(idx, _)], when the user types
    [line] and the clock reads [now].  The entries of [_get_items] are in
    range and the turns keep the number of items, so the object is always
    found; [cmd.split(maxsplit=1)[1]] raises [IndexError] when the line has
    one word only. *)
Definition review_turn (idx : nat) (line now : string) (s : Session) : Turn :=
  match Db.items (data s) !! idx with
  | None => Raise
  | Some item =>
      let cmd := Py.lower (Py.strip line) in
      if bool_decide (cmd ∈ ["k"; "keep"; EmptyString]) then
        Next (mkSession (S (pos s)) ({[Item.id item]} ∪ reviewed s)
                (put_item idx (Item.set_reviewed true item) (data s)))
      else if bool_decide (cmd ∈ ["r"; "remove"]) then
        Next (mkSession (S (pos s)) ({[Item.id item]} ∪ reviewed s)
                (put_item idx
                   (Item.set_removed true now (Item.set_reviewed true item))
                   (data s)))
      else if bool_decide (cmd ∈ ["s"; "skip"]) then
        Next (mkSession (S (pos s)) (reviewed s) (data s))
      else if Py.startswith cmd "t " || Py.startswith cmd "tag " then
        match Py.split_once cmd !! 1 with
        | None => Raise
        | Some arg =>
            let existing := Item.tags item ++ parse_tags arg in
            Next (mkSession (pos s) (reviewed s)
                    (put_item idx
                       (Item.set_tags (Py.sorted_set existing) item) (data s)))
        end
      else if Py.startswith cmd "n " || Py.startswith cmd "note " then
        match Py.split_once cmd !! 1 with
        | None => Raise
        | Some note_text =>
            Next (mkSession (pos s) (reviewed s)
                    (put_item idx (Item.set_note note_text item) (data s)))
        end
      else if bool_decide (cmd ∈ ["q"; "quit"]) then Break
      else Next s
  end.

(** The loop of [review].  [inputs] are the lines the user types, each with
    the reading of the clock while it is handled.  The result is the
    variables when the loop ends, or [None] when an exception ends it:
    [input()] raises [EOFError] when no line is left. *)
Fixpoint review_loop (items : list (nat * Item.t))
    (inputs : list (string * string)) (s : Session) : option Session :=
  match items !! pos s with
  | None => Some s
  | Some (idx, _) =>
      match inputs with
      | [] => None
      | (line, now) :: rest =>
          match review_turn idx line now s with
          | Next s' => review_loop items rest s'
          | Break => Some s
          | Raise => None
          end
      end
  end.

(** [review(config, mode)], started when the clock reads [start]: the world
    it leaves, or [None] when it raises (it has written nothing then).
    [list(reviewed)] lists the set in an order of its own, as [elements]
    does. *)
Definition review (config : Config.t) (mode : string) (start : string)
    (inputs : list (string * string)) (w : World) : option World :=
  let state0 := _load_state config w in
  let state :=
    State.mk mode (State.reviewed_ids state0) (Some start)
      (State.last_shown_id state0) in
  let data0 := load_db (Config.likes_file config) w in
  let reviewed0 : gset string := list_to_set (State.reviewed_ids state) in
  let items := _get_items data0 mode reviewed0 in
  match items with
  | [] => Some w
  | _ :: _ =>
      match review_loop items inputs (mkSession 0 reviewed0 data0) with
      | None => None
      | Some s =>
          let state' :=
            State.mk (State.mode state) (elements (reviewed s))
              (State.session_start state) (State.last_shown_id state) in
          Some (save_db (Config.likes_file config) (data s)
                  (_save_state config state' w))
      end
  end.

(** ** JSON text ([json.dumps], [json.loads]) *)

(** The documents the package persists: [None], booleans, integers,
    strings, lists and dicts with string keys (in insertion order). *)
Module Json.

#[local] Set Warnings "-register-all".

Inductive t : Type :=
| Null
| Bool (b : bool)
| Num (n : Z)
| Str (s : string)
| Arr (elements : list t)
| Obj (members : list (string * t)).

Definition dquote : ascii := "034"%char.
Definition backslash : ascii := "092"%char.
Definition newline : ascii := "010"%char.

Definition hex_digit (n : N) : ascii :=
  ascii_of_N (if (n <? 10)%N then 48 + n else 87 + n)%N.

(** How [json.dumps(..., ensure_ascii=False)] writes one byte of a string:
    the quote, the backslash and the control characters are escaped. *)
Definition escape_char (c : ascii) : string :=
  let n := N_of_ascii c in
  let esc (e : ascii) := String backslash (String e EmptyString) in
  if (n =? 34)%N then esc dquote
  else if (n =? 92)%N then esc backslash
  else if (n =? 10)%N then esc "n"%char
  else if (n =? 13)%N then esc "r"%char
  else if (n =? 9)%N then esc "t"%char
  else if (n =? 8)%N then esc "b"%char
  else if (n =? 12)%N then esc "f"%char
  else if (n <? 32)%N then
    String backslash
      ("u00" +:+ String (hex_digit (n / 16)) (String (hex_digit (n mod 16)) EmptyString))
  else String c EmptyString.

Fixpoint escape (s : string) : string :=
  match s with
  | EmptyString => EmptyString
  | String c s' => escape_char c +:+ escape s'
  end.

Definition quote (s : string) : string :=
  String dquote (escape s +:+ String dquote EmptyString).

Fixpoint spaces (n : nat) : string :=
  match n with
  | 0 => EmptyString
  | S n' => String " "%char (spaces n')
  end.

(** A line break and the indentation of nesting depth [level]
    ([indent=2]). *)
Definition newline_indent (level : nat) : string :=
  String newline (spaces (2 * level)).

Fixpoint join (sep : string) (parts : list string) : string :=
  match parts with
  | [] => EmptyString
  | [p] => p
  | p :: ps => p +:+ sep +:+ join sep ps
  end.

(** The text of [v] when it stands at nesting depth [level]. *)
Fixpoint dumps_at (level : nat) (v : t) : string :=
  match v with
  | Null => "null"
  | Bool true => "true"
  | Bool false => "false"
  | Num n => NilZero.string_of_int (Z.to_int n)
  | Str s => quote s
  | Arr [] => "[]"
  | Arr elements =>
      "[" +:+ newline_indent (S level)
      +:+ join ("," +:+ newline_indent (S level))
            (List.map (dumps_at (S level)) elements)
      +:+ newline_indent level +:+ "]"
  | Obj [] => "{}"
  | Obj members =>
      "{" +:+ newline_indent (S level)
      +:+ join ("," +:+ newline_indent (S level))
            (List.map (fun kv => quote (fst kv) +:+ ": " +:+ dumps_at (S level) (snd kv))
               members)
      +:+ newline_indent level +:+ "}"
  end.

(** [json.dumps(v, indent=2, ensure_ascii=False)] *)
Definition dumps (v : t) : string := dumps_at 0 v.

(** The whitespace of JSON text. *)
Definition is_ws (c : ascii) : bool :=
  let n := N_of_ascii c in
  ((n =? 32) || (n =? 9) || (n =? 10) || (n =? 13))%N.

Fixpoint skip_ws (s : string) : string :=
  match s with
  | EmptyString => EmptyString
  | String c s' => if is_ws c then skip_ws s' else s
  end.

Fixpoint drop_bytes (n : nat) (s : string) : string :=
  match n, s with
  | 0, _ => s
  | S n', String _ s' => drop_bytes n' s'
  | S _, EmptyString => EmptyString
  end.

(** The literal [lit] standing at the head of [s] denotes [v]. *)
Definition literal (lit : string) (v : t) (s : string) : option (t * string) :=
  if String.prefix lit s then Some (v, drop_bytes (String.length lit) s)
  else None.

Definition hex_value (c : ascii) : option N :=
  let n := N_of_ascii c in
  if ((48 <=? n) && (n <=? 57))%N then Some (n - 48)%N
  else if ((97 <=? n) && (n <=? 102))%N then Some (n - 87)%N
  else if ((65 <=? n) && (n <=? 70))%N then Some (n - 55)%N
  else None.

(** The UTF-8 bytes of a code point of the basic plane.  The escape of a
    surrogate is refused: the documents of this development hold none. *)
Definition utf8 (n : N) : option string :=
  let byte (k : N) := ascii_of_N k in
  if (n <? 128)%N then Some (String (byte n) EmptyString)
  else if (n <? 2048)%N then
    Some (String (byte (192 + n / 64)%N) (String (byte (128 + n mod 64)%N) EmptyString))
  else if ((55296 <=? n) && (n <? 57344))%N then None
  else if (n <? 65536)%N then
    Some (String (byte (224 + n / 4096)%N)
            (String (byte (128 + (n / 64) mod 64)%N)
               (String (byte (128 + n mod 64)%N) EmptyString)))
  else None.

Definition hex4 (a b c d : ascii) : option N :=
  match hex_value a, hex_value b, hex_value c, hex_value d with
  | Some x, Some y, Some z, Some w => Some (((x * 16 + y) * 16 + z) * 16 + w)%N
  | _, _, _, _ => None
  end.

Definition prepend (p : string) (r : option (string * string))
    : option (string * string) :=
  match r with
  | Some (s, rest) => Some (p +:+ s, rest)
  | None => None
  end.

(** The string whose opening quote has been read: its value and the text
    after its closing quote.  A control character is refused, as the
    strict mode of [json.loads] does. *)
Fixpoint parse_chars (s : string) : option (string * string) :=
  match s with
  | EmptyString => None
  | String c s' =>
      if Ascii.eqb c dquote then Some (EmptyString, s')
      else if Ascii.eqb c backslash then
        match s' with
        | EmptyString => None
        | String e s'' =>
            let one (k : N) := prepend (String (ascii_of_N k) EmptyString) (parse_chars s'') in
            if Ascii.eqb e dquote then one 34%N
            else if Ascii.eqb e backslash then one 92%N
            else if Ascii.eqb e "/" then one 47%N
            else if Ascii.eqb e "b" then one 8%N
            else if Ascii.eqb e "f" then one 12%N
            else if Ascii.eqb e "n" then one 10%N
            else if Ascii.eqb e "r" then one 13%N
            else if Ascii.eqb e "t" then one 9%N
            else if Ascii.eqb e "u" then
              match s'' with
              | String h1 (String h2 (String h3 (String h4 s4))) =>
                  match hex4 h1 h2 h3 h4 with
                  | Some n =>
                      match utf8 n with
                      | Some bytes => prepend bytes (parse_chars s4)
                      | None => None
                      end
                  | None => None
                  end
              | _ => None
              end
            else None
        end
      else if (N_of_ascii c <? 32)%N then None
      else prepend (String c EmptyString) (parse_chars s')
  end.

Definition is_digit (c : ascii) : bool :=
  ((48 <=? N_of_ascii c) && (N_of_ascii c <=? 57))%N.

(** The digits at the head of [s], read after the value [acc]. *)
Fixpoint parse_digits (acc : Z) (s : string) : Z * string :=
  match s with
  | EmptyString => (acc, s)
  | String c s' =>
      if is_digit c
      then parse_digits (10 * acc + Z.of_N (N_of_ascii c - 48)) s'
      else (acc, s)
  end.

(** An integer without sign: [0], or digits that do not start with [0]. *)
Definition parse_nat (s : string) : option (Z * string) :=
  match s with
  | EmptyString => None
  | String c s' =>
      if Ascii.eqb c "0" then Some (0%Z, s')
      else if is_digit c then Some (parse_digits 0 s)
      else None
  end.

(** A value at the head of [s] (after whitespace) and the text after it;
    [parse_elements] and [parse_members] read the rest of a list and of a
    dict up to the closing bracket.  Numbers with a fraction or an
    exponent are not read. *)
Fixpoint parse_value (fuel : nat) (s : string) : option (t * string) :=
  match fuel with
  | 0 => None
  | S fuel' =>
      match skip_ws s with
      | EmptyString => None
      | String c rest =>
          if Ascii.eqb c "n" then literal "ull" Null rest
          else if Ascii.eqb c "t" then literal "rue" (Bool true) rest
          else if Ascii.eqb c "f" then literal "alse" (Bool false) rest
          else if Ascii.eqb c dquote then
            match parse_chars rest with
            | Some (str, r) => Some (Str str, r)
            | None => None
            end
          else if Ascii.eqb c "[" then
            match skip_ws rest with
            | String c' r =>
                if Ascii.eqb c' "]" then Some (Arr [], r)
                else match parse_elements fuel' rest with
                     | Some (l, r') => Some (Arr l, r')
                     | None => None
                     end
            | EmptyString => None
            end
          else if Ascii.eqb c "{" then
            match skip_ws rest with
            | String c' r =>
                if Ascii.eqb c' "}" then Some (Obj [], r)
                else match parse_members fuel' rest with
                     | Some (l, r') => Some (Obj l, r')
                     | None => None
                     end
            | EmptyString => None
            end
          else if Ascii.eqb c "-" then
            match parse_nat rest with
            | Some (n, r) => Some (Num (- n), r)
            | None => None
            end
          else
            match parse_nat (String c rest) with
            | Some (n, r) => Some (Num n, r)
            | None => None
            end
      end
  end
with parse_elements (fuel : nat) (s : string) : option (list t * string) :=
  match fuel with
  | 0 => None
  | S fuel' =>
      match parse_value fuel' s with
      | None => None
      | Some (v, r) =>
          match skip_ws r with
          | EmptyString => None
          | String c r' =>
              if Ascii.eqb c "," then
                match parse_elements fuel' r' with
                | Some (l, r'') => Some (v :: l, r'')
                | None => None
                end
              else if Ascii.eqb c "]" then Some ([v], r')
              else None
          end
      end
  end
with parse_members (fuel : nat) (s : string)
    : option (list (string * t) * string) :=
  match fuel with
  | 0 => None
  | S fuel' =>
      match skip_ws s with
      | EmptyString => None
      | String q r0 =>
          if Ascii.eqb q dquote then
            match parse_chars r0 with
            | None => None
            | Some (k, r1) =>
                match skip_ws r1 with
                | EmptyString => None
                | String colon r2 =>
                    if Ascii.eqb colon ":" then
                      match parse_value fuel' r2 with
                      | None => None
                      | Some (v, r3) =>
                          match skip_ws r3 with
                          | EmptyString => None
                          | String c r4 =>
                              if Ascii.eqb c "," then
                                match parse_members fuel' r4 with
                                | Some (l, r5) => Some ((k, v) :: l, r5)
                                | None => None
                                end
                              else if Ascii.eqb c "}" then Some ([(k, v)], r4)
                              else None
                          end
                      end
                    else None
                end
            end
          else None
      end
  end.

(** [json.loads(s)]: the document of the text [s], or [None] where
    [json.loads] raises [JSONDecodeError]. *)
Definition loads (s : string) : option t :=
  match parse_value (2 * String.length s + 2) s with
  | Some (v, r) =>
      match skip_ws r with
      | EmptyString => Some v
      | String _ _ => None
      end
  | None => None
  end.

End Json.

(** The dict of an item, its keys in the order in which the merge and the
    review insert them. *)
Definition item_to_json (it : Item.t) : Json.t :=
  Json.Obj
    ([("id", Json.Str (Item.id it));
      ("title", Json.Str (Item.title it));
      ("author", Json.Str (Item.author it));
      ("author_id", Json.Str (Item.author_id it));
      ("url", Json.Str (Item.url it));
      ("cover", Json.Str (Item.cover it));
      ("type", Json.Str (Item.type it));
      ("tags", Json.Arr (Json.Str <$> Item.tags it));
      ("desc", Json.Str (Item.desc it));
      ("note", Json.Str (Item.note it));
      ("reviewed", Json.Bool (Item.reviewed it));
      ("xsec_token", Json.Str (Item.xsec_token it));
      ("first_seen", Json.Str (Item.first_seen it));
      ("saved_at", Json.Str (Item.saved_at it))]
     ++ match Item.removed it with
        | Some b => [("removed", Json.Bool b)]
        | None => []
        end
     ++ match Item.removed_at it with
        | Some s => [("removed_at", Json.Str s)]
        | None => []
        end).

(** The dict of a collection. *)
Definition db_to_json (db : Db.t) : Json.t :=
  Json.Obj
    [("items", Json.Arr (item_to_json <$> Db.items db));
     ("last_fetch", match Db.last_fetch db with
                    | Some s => Json.Str s
                    | None => Json.Null
                    end)].

(** ** Files as bytes (utils.py) *)

Module Disk.

(** How far a call of [Path.write_text] has come when the process dies.
    [write_text] opens the file with mode ["w"], which creates or empties
    it, then writes the text and closes the file: the file holds its old
    content until it is opened, and the first [k] bytes of the text once [k]
    bytes have reached it. *)
Inductive progress : Type :=
| NotOpened
| Written (k : nat).

Fixpoint first_bytes (k : nat) (s : string) : string :=
  match k, s with
  | 0, _ => EmptyString
  | S _, EmptyString => EmptyString
  | S k', String c s' => String c (first_bytes k' s')
  end.

(** [path.write_text(content)], run to its end. *)
Definition write_text (path content : string) (fs : gmap string string)
    : gmap string string :=
  <[path := content]> fs.

(** The files a call of [path.write_text(content)] leaves when the process
    dies at [p]. *)
Definition write_text_upto (p : progress) (path content : string)
    (fs : gmap string string) : gmap string string :=
  match p with
  | NotOpened => fs
  | Written k => <[path := first_bytes k content]> fs
  end.

(** [save_db(path, data)]: the text is built first, then written in place.
    ([mkdir] changes no file.) *)
Definition save_db (path : string) (data : Json.t) (fs : gmap string string)
    : gmap string string :=
  write_text path (Json.dumps data) fs.

(** The files a call of [save_db(path, data)] leaves when the process dies
    at [p]. *)
Definition save_db_upto (p : progress) (path : string) (data : Json.t)
    (fs : gmap string string) : gmap string string :=
  write_text_upto p path (Json.dumps data) fs.

Inductive loaded : Type :=
| Loaded (data : Json.t)
| JSONDecodeError.

(** [load_db(path)] *)
Definition load_db (path : string) (fs : gmap string string) : loaded :=
  match fs !! path with
  | Some text =>
      match Json.loads text with
      | Some data => Loaded data
      | None => JSONDecodeError
      end
  | None =>
      Loaded (Json.Obj [("items", Json.Arr []); ("last_fetch", Json.Null)])
  end.

End Disk.

(** ** Notions the properties are stated with *)

(** A rule matches a title and a text when one of its keywords occurs,
    whatever the case of the letters, in the title, a space and the text. *)
Definition rule_matches (title text : string) (rule : Rule.t) : Prop :=
  exists kw, In kw (Rule.keywords rule)
             /\ Py.occurs_ci kw (title +:+ " " +:+ text).

(** The ids of the items of a collection, in order. *)
Definition item_ids (db : Db.t) : list string := Item.id <$> Db.items db.

(** The ids of a sequence of raw records, in order. *)
Definition note_ids (notes : list Note.t) : list string :=
  Note.note_id <$> notes.

(** The records whose id is not among the ids of the collection. *)
Definition fresh_notes (notes : list Note.t) (db : Db.t) : list Note.t :=
  filter (fun note => Note.note_id note ∉ item_ids db) notes.

(** The number of items of a collection that carry the id [nid]. *)
Definition count_id (nid : string) (db : Db.t) : nat :=
  count_occ string_dec (item_ids db) nid.

(** The path of a collection, as [tag_all] chooses it. *)
Definition collection_file (config : Config.t) (collection : string) : string :=
  if String.eqb collection "likes" then Config.likes_file config
  else Config.bookmarks_file config.

(** The command a line stands for: what the loop of [review] tests. *)
Definition command (line : string) : string := Py.lower (Py.strip line).

(** The variables the loop of [review] starts with. *)
Definition start_session (config : Config.t) (w : World) : Session :=
  mkSession 0 (list_to_set (State.reviewed_ids (_load_state config w)))
    (load_db (Config.likes_file config) w).

(** The list the loop of [review] works through. *)
Definition eligible (config : Config.t) (mode : string) (w : World)
    : list (nat * Item.t) :=
  _get_items (load_db (Config.likes_file config) w) mode
    (list_to_set (State.reviewed_ids (_load_state config w))).

(** ** Sample data *)

Module Sample.

Definition config : Config.t :=
  Config.mk "https://www.xiaohongshu.com"
    [Rule.mk "X" ["foo"]; Rule.mk "Y" ["bar"]]
    "data/likes.json" "data/bookmarks.json" "data/review_state.json".

Definition item (id title : string) (tags : list string) : Item.t :=
  Item.mk id title EmptyString EmptyString
    ("https://www.xiaohongshu.com/explore/" +:+ id) EmptyString EmptyString
    tags EmptyString EmptyString false EmptyString
    "2024-05-01 09:00" "2024-05-01 09:00" None None.

Definition note (id title : string) : Note.t :=
  Note.mk id title EmptyString EmptyString EmptyString Note.CoverOther
    EmptyString EmptyString.

(** A collection of two items, the second one tagged. *)
Definition db : Db.t :=
  Db.mk [item "1" "foo one" []; item "2" "two" ["X"]] (Some "2024-05-01 09:00").

Definition world : World := mkWorld {[ "data/likes.json" := db ]} ∅.

End Sample.

(** ** Tactics *)

(** Settles a decidable proposition about concrete data by evaluating its
    decision procedure. *)
Ltac by_evaluation := apply (bool_decide_unpack _); vm_compute; exact I.

(** ** Further functions of the package *)

From Stdlib Require Import Sorted.
From Stdlib Require DecimalFacts DecimalPos DecimalN DecimalZ.

(** *** Tagging one item (tagger.py) *)

(** The loop of [tag_item] over [db["items"]]: the items with the tags of
    the first item whose id is [item_id] extended, or [None] when no item
    has that id. *)
Fixpoint tag_item_loop (item_id : string) (tags : list string)
    (items : list Item.t) : option (list Item.t) :=
  match items with
  | [] => None
  | item :: rest =>
      if String.eqb (Item.id item) item_id
      then Some (Item.set_tags (Py.sorted_set (Item.tags item ++ tags)) item
                 :: rest)
      else match tag_item_loop item_id tags rest with
           | Some rest' => Some (item :: rest')
           | None => None
           end
  end.

(** [tag_item(config, collection, item_id, tags)]: when no item has the id,
    nothing is written. *)
Definition tag_item (config : Config.t) (collection item_id : string)
    (tags : list string) (w : World) : World :=
  let db_path :=
    if String.eqb collection "likes" then Config.likes_file config
    else Config.bookmarks_file config in
  let db := load_db db_path w in
  match tag_item_loop item_id tags (Db.items db) with
  | Some items' => save_db db_path (Db.mk items' (Db.last_fetch db)) w
  | None => w
  end.

(** *** Unliking a post (unlike.py) *)

(** The first loop of [unlike_post]: the index of the first item whose id is
    [item_id], counted from [i], and that item. *)
Fixpoint find_item (i : nat) (item_id : string) (items : list Item.t)
    : option (nat * Item.t) :=
  match items with
  | [] => None
  | item :: rest =>
      if String.eqb (Item.id item) item_id then Some (i, item)
      else find_item (S i) item_id rest
  end.

(** [unlike_post(config, item_id)], when the clock reads [now].  [like_btn]
    says whether the browser found a like button to click; the browser is
    opened only when the item is found, and what it does changes no file. *)
Definition unlike_post (config : Config.t) (item_id : string)
    (like_btn : bool) (now : string) (w : World) : World :=
  let db := load_db (Config.likes_file config) w in
  match find_item 0 item_id (Db.items db) with
  | None => w
  | Some (idx, item) =>
      save_db (Config.likes_file config)
        (put_item idx (Item.set_reviewed true (Item.set_removed true now item)) db)
        w
  end.

(** *** Capture (fetcher.py) *)

(** The settings [config.fetch] that the capture reads, each [None] when
    the key is missing. *)
Module Fetch.

Record t : Type := mk {
  max_scrolls_likes : option Z;
  max_scrolls_bookmarks : option Z;
  no_change_threshold : option Z
}.

End Fetch.

(** What the browser answers during one call of [_fetch_by_tab]: the user
    id ([config.user_id or get_my_user_id(page)], empty when there is none),
    whether the tab is found, the records of the responses captured before
    the first scroll, and those captured during the scroll number [i]. *)
Module Browser.

Record t : Type := mk {
  user_id : string;
  tab_found : bool;
  initial : list Note.t;
  scrolled : nat -> list Note.t
}.

End Browser.

(** The scroll loop of [_fetch_by_tab], from the scroll number [i] on, with
    [remaining] scrolls left of [max_scrolls]: the records captured and the
    number of scrolls made. *)
Fixpoint scroll_loop (remaining i : nat) (threshold : Z)
    (scrolled : nat -> list Note.t) (all_notes : list Note.t)
    (prev_count no_change : nat) : list Note.t * nat :=
  match remaining with
  | 0 => (all_notes, i)
  | S remaining' =>
      let all_notes' := all_notes ++ scrolled i in
      let curr := length all_notes' in
      if (curr =? prev_count)%nat then
        if (threshold <=? Z.of_nat (S no_change))%Z then (all_notes', S i)
        else scroll_loop remaining' (S i) threshold scrolled all_notes' curr
               (S no_change)
      else scroll_loop remaining' (S i) threshold scrolled all_notes' curr 0
  end.

(** [_fetch_by_tab(config, tab_name, api_pattern, max_scrolls)]: the
    records it returns, or [None] when it leaves the process with
    [sys.exit(1)]. *)
Definition _fetch_by_tab (fetch : Fetch.t) (browser : Browser.t)
    (max_scrolls : Z) : option (list Note.t) :=
  if negb (Py.truthy (Browser.user_id browser)) then None
  else if negb (Browser.tab_found browser) then Some []
  else
    let all_notes := Browser.initial browser in
    let threshold := default 3%Z (Fetch.no_change_threshold fetch) in
    let '(all_notes', _) :=
      scroll_loop (Z.to_nat max_scrolls) 0 threshold
        (Browser.scrolled browser) all_notes (length all_notes) 0 in
    Some (deduplicate all_notes').

(** [fetch_likes(config)], with the merge run when the clock reads
    [timestamp]: the world it leaves and the count it returns. *)
Definition fetch_likes (config : Config.t) (fetch : Fetch.t)
    (browser : Browser.t) (timestamp : string) (w : World)
    : option (World * nat) :=
  let max_scrolls := default 50%Z (Fetch.max_scrolls_likes fetch) in
  match _fetch_by_tab fetch browser max_scrolls with
  | None => None
  | Some notes =>
      Some (_process_notes notes config (Config.likes_file config) timestamp w)
  end.

(** [fetch_bookmarks(config)] *)
Definition fetch_bookmarks (config : Config.t) (fetch : Fetch.t)
    (browser : Browser.t) (timestamp : string) (w : World)
    : option (World * nat) :=
  let max_scrolls := default 30%Z (Fetch.max_scrolls_bookmarks fetch) in
  match _fetch_by_tab fetch browser max_scrolls with
  | None => None
  | Some notes =>
      Some (_process_notes notes config (Config.bookmarks_file config)
              timestamp w)
  end.

(** *** Merging configurations (config.py) *)

(** A dict with string keys, in insertion order. *)
Module Dict.

(** [d.get(key)] *)
Fixpoint get (key : string) (d : list (string * Json.t)) : option Json.t :=
  match d with
  | [] => None
  | (k, v) :: d' => if String.eqb k key then Some v else get key d'
  end.

(** [d[key] = value]: the value of a key of the dict is replaced where it
    stands, a new key goes to the end. *)
Fixpoint set (key : string) (value : Json.t) (d : list (string * Json.t))
    : list (string * Json.t) :=
  match d with
  | [] => [(key, value)]
  | (k, v) :: d' =>
      if String.eqb k key then (k, value) :: d' else (k, v) :: set key value d'
  end.

End Dict.

(** [_deep_merge(base, override)] for the dict [override] (any other value
    merges nothing). *)
Fixpoint deep_merge_into (base : list (string * Json.t)) (override : Json.t)
    : list (string * Json.t) :=
  match override with
  | Json.Obj members =>
      (fix loop (result : list (string * Json.t))
           (items : list (string * Json.t)) {struct items}
           : list (string * Json.t) :=
         match items with
         | [] => result
         | (key, value) :: rest =>
             loop
               match Dict.get key result, value with
               | Some (Json.Obj b), Json.Obj _ =>
                   Dict.set key (Json.Obj (deep_merge_into b value)) result
               | _, _ => Dict.set key value result
               end
               rest
         end) base members
  | _ => base
  end.

(** One turn of the loop of [_deep_merge]. *)
Definition merge_key (result : list (string * Json.t)) (key : string) (value : Json.t)
    : list (string * Json.t) :=
  match Dict.get key result, value with
  | Some (Json.Obj b), Json.Obj _ =>
      Dict.set key (Json.Obj (deep_merge_into b value)) result
  | _, _ => Dict.set key value result
  end.

Definition _deep_merge (base override : list (string * Json.t))
    : list (string * Json.t) :=
  deep_merge_into base (Json.Obj override).

(** ** Further notions the properties are stated with *)

(** The strict order of [sorted] on strings. *)
Definition str_lt (a b : string) : Prop := String.compare a b = Lt.

(** What the review of an item may change: the tags may grow, the note may
    change, [reviewed] and [removed] may be set; everything else stays. *)
Definition item_evolves (it it1 : Item.t) : Prop :=
  Item.id it1 = Item.id it
  /\ Item.title it1 = Item.title it
  /\ Item.author it1 = Item.author it
  /\ Item.author_id it1 = Item.author_id it
  /\ Item.url it1 = Item.url it
  /\ Item.cover it1 = Item.cover it
  /\ Item.type it1 = Item.type it
  /\ Item.desc it1 = Item.desc it
  /\ Item.xsec_token it1 = Item.xsec_token it
  /\ Item.first_seen it1 = Item.first_seen it
  /\ Item.saved_at it1 = Item.saved_at it
  /\ (Item.reviewed it = true -> Item.reviewed it1 = true)
  /\ (Item.is_removed it = true -> Item.is_removed it1 = true)
  /\ (forall t, t ∈ Item.tags it -> t ∈ Item.tags it1).

(** The fuel that suffices to read the text of a document: one unit for the
    document and one more for each element or member below it. *)
Fixpoint fuel_need (v : Json.t) : nat :=
  match v with
  | Json.Arr elements =>
      S (list_sum (List.map (fun e => S (fuel_need e)) elements))
  | Json.Obj members =>
      S (list_sum (List.map (fun kv => S (fuel_need (snd kv))) members))
  | _ => 1
  end.

(** The text does not go on with a digit. *)
Definition no_digit_ahead (s : string) : Prop :=
  match s with
  | EmptyString => True
  | String c _ => Json.is_digit c = false
  end.

(** The value of the decimal digits [d] read after the value [acc]. *)
Fixpoint uint_value (acc : Z) (d : Decimal.uint) : Z :=
  match d with
  | Decimal.Nil => acc
  | Decimal.D0 d' => uint_value (10 * acc + 0) d'
  | Decimal.D1 d' => uint_value (10 * acc + 1) d'
  | Decimal.D2 d' => uint_value (10 * acc + 2) d'
  | Decimal.D3 d' => uint_value (10 * acc + 3) d'
  | Decimal.D4 d' => uint_value (10 * acc + 4) d'
  | Decimal.D5 d' => uint_value (10 * acc + 5) d'
  | Decimal.D6 d' => uint_value (10 * acc + 6) d'
  | Decimal.D7 d' => uint_value (10 * acc + 7) d'
  | Decimal.D8 d' => uint_value (10 * acc + 8) d'
  | Decimal.D9 d' => uint_value (10 * acc + 9) d'
  end.

(** A text that starts with a character that is neither whitespace nor a
    closing bracket. *)
Definition starts_value (s : string) : Prop :=
  match s with
  | EmptyString => False
  | String c _ => Json.is_ws c = false /\ Ascii.eqb c "]" = false
  end.

(** With [fuel], the parser reads the text of a document, of the elements
    of a list and of the members of a dict back, whatever follows. *)
Definition reads_value (fuel : nat) : Prop :=
  forall (v : Json.t) (level : nat) (rest : string),
    fuel_need v <= fuel -> no_digit_ahead rest ->
    Json.parse_value fuel (Json.dumps_at level v +:+ rest) = Some (v, rest).

Definition reads_elements (fuel : nat) : Prop :=
  forall (es : list Json.t) (e : Json.t) (level : nat) (rest : string),
    list_sum (List.map (fun e => S (fuel_need e)) (e :: es)) <= fuel ->
    Json.parse_elements fuel
      (Json.newline_indent (S level)
       +:+ Json.join (String "," (Json.newline_indent (S level)))
             (List.map (Json.dumps_at (S level)) (e :: es))
       +:+ Json.newline_indent level +:+ String "]" rest)
    = Some (e :: es, rest).

Definition reads_members (fuel : nat) : Prop :=
  forall (ms : list (string * Json.t)) (m : string * Json.t) (level : nat) (rest : string),
    list_sum (List.map (fun kv => S (fuel_need (snd kv))) (m :: ms)) <= fuel ->
    Json.parse_members fuel
      (Json.newline_indent (S level)
       +:+ Json.join (String "," (Json.newline_indent (S level)))
             (List.map (fun kv => Json.quote (fst kv) +:+ String ":" (String " "
                                    (Json.dumps_at (S level) (snd kv))))
                (m :: ms))
       +:+ Json.newline_indent level +:+ String "}" rest)
    = Some (m :: ms, rest).


(** ** The classifier and the review session over the interpreter's strings *)

(** What [str.lower], [str.strip] and [str.split] do to a character outside
    ASCII is laid down by the Unicode tables of the interpreter that runs
    the package: [str.lower] folds every cased letter (["É"], Greek, the
    Kelvin sign), and [str.strip] and [str.split] also drop the ideographic
    space U+3000, the no-break space and their like.  The definitions of
    module [Generic] follow tagger.py and reviewer.py line by line and take
    these three operations as they are, as the parameter [ops]: what is
    proved of them holds for the package on every interpreter and on every
    text.  Substring tests, [str.startswith], [str.split(",")] and the order
    of [sorted] do not depend on the tables; they are those of module
    [Py]. *)
Module Str.

Record ops : Type := mk {
  lower : string -> string;
  strip : string -> string;
  split_once : string -> list string
}.

(** The three operations on ASCII text, where they are the same on every
    interpreter: [lower] is [s.lower()], [strip] is [s.strip()] and
    [split_once] is [s.split(maxsplit=1)] for a string [s] of ASCII
    characters.  On other strings these are not the operations of Python:
    the examples that use [ascii] are on ASCII text. *)
Definition ascii : ops := mk Py.lower Py.strip Py.split_once.

End Str.

Module Generic.

Section Ops.

Variable ops : Str.ops.

(** *** tagger.py *)

(** The inner loop of [auto_tag]: [kw.lower() in combined] for some keyword
    of the rule. *)
Fixpoint any_keyword_in (combined : string) (kws : list string) : bool :=
  match kws with
  | [] => false
  | kw :: kws' =>
      if Py.contains (Str.lower ops kw) combined then true
      else any_keyword_in combined kws'
  end.

(** The outer loop of [auto_tag], with the list [tags] built so far. *)
Fixpoint auto_tag_loop (combined : string) (tag_rules : list Rule.t)
    (tags : list string) : list string :=
  match tag_rules with
  | [] => tags
  | rule :: rest =>
      if any_keyword_in combined (Rule.keywords rule)
      then auto_tag_loop combined rest (tags ++ [Rule.name rule])
      else auto_tag_loop combined rest tags
  end.

Definition auto_tag (title text : string) (tag_rules : list Rule.t)
    : list string :=
  let combined := Str.lower ops (title +:+ " " +:+ text) in
  match auto_tag_loop combined tag_rules [] with
  | [] => [fallback_tag]
  | tags => tags
  end.

(** "[kw] occurs in [s], whatever the case of the letters": the test of
    [auto_tag], [kw.lower() in s.lower()]. *)
Definition occurs_ci (kw s : string) : Prop :=
  Py.occurs_in (Str.lower ops kw) (Str.lower ops s).

(** A rule matches a title and a text when one of its keywords occurs,
    whatever the case of the letters, in the title, a space and the text. *)
Definition rule_matches (title text : string) (rule : Rule.t) : Prop :=
  exists kw, In kw (Rule.keywords rule)
             /\ occurs_ci kw (title +:+ " " +:+ text).

(** *** reviewer.py *)

(** [[t.strip() for t in arg.split(",") if t.strip()]] *)
Definition parse_tags (arg : string) : list string :=
  Str.strip ops <$> List.filter (fun t => Py.truthy (Str.strip ops t))
                      (Py.split_char "," arg).

(** [cmd = input(">>> ").strip().lower()] for the line [line]. *)
Definition command (line : string) : string :=
  Str.lower ops (Str.strip ops line).

(** One turn of the loop on the entry [(idx, _)], when the user types
    [line] and the clock reads [now].  [cmd.split(maxsplit=1)[1]] raises
    [IndexError] when the list has one element only. *)
Definition review_turn (idx : nat) (line now : string) (s : Session) : Turn :=
  match Db.items (data s) !! idx with
  | None => Raise
  | Some item =>
      let cmd := Str.lower ops (Str.strip ops line) in
      if bool_decide (cmd ∈ ["k"; "keep"; EmptyString]) then
        Next (mkSession (S (pos s)) ({[Item.id item]} ∪ reviewed s)
                (put_item idx (Item.set_reviewed true item) (data s)))
      else if bool_decide (cmd ∈ ["r"; "remove"]) then
        Next (mkSession (S (pos s)) ({[Item.id item]} ∪ reviewed s)
                (put_item idx
                   (Item.set_removed true now (Item.set_reviewed true item))
                   (data s)))
      else if bool_decide (cmd ∈ ["s"; "skip"]) then
        Next (mkSession (S (pos s)) (reviewed s) (data s))
      else if Py.startswith cmd "t " || Py.startswith cmd "tag " then
        match Str.split_once ops cmd !! 1 with
        | None => Raise
        | Some arg =>
            let existing := Item.tags item ++ parse_tags arg in
            Next (mkSession (pos s) (reviewed s)
                    (put_item idx
                       (Item.set_tags (Py.sorted_set existing) item) (data s)))
        end
      else if Py.startswith cmd "n " || Py.startswith cmd "note " then
        match Str.split_once ops cmd !! 1 with
        | None => Raise
        | Some note_text =>
            Next (mkSession (pos s) (reviewed s)
                    (put_item idx (Item.set_note note_text item) (data s)))
        end
      else if bool_decide (cmd ∈ ["q"; "quit"]) then Break
      else Next s
  end.

(** The loop of [review].  [inputs] are the lines the user types, each with
    the reading of the clock while it is handled.  The result is the
    variables when the loop ends, or [None] when an exception ends it:
    [input()] raises [EOFError] when no line is left. *)
Fixpoint review_loop (items : list (nat * Item.t))
    (inputs : list (string * string)) (s : Session) : option Session :=
  match items !! pos s with
  | None => Some s
  | Some (idx, _) =>
      match inputs with
      | [] => None
      | (line, now) :: rest =>
          match review_turn idx line now s with
          | Next s' => review_loop items rest s'
          | Break => Some s
          | Raise => None
          end
      end
  end.

(** [review(config, mode)], started when the clock reads [start]: the world
    it leaves, or [None] when it raises (it has written nothing then). *)
Definition review (config : Config.t) (mode : string) (start : string)
    (inputs : list (string * string)) (w : World) : option World :=
  let state0 := _load_state config w in
  let state :=
    State.mk mode (State.reviewed_ids state0) (Some start)
      (State.last_shown_id state0) in
  let data0 := load_db (Config.likes_file config) w in
  let reviewed0 : gset string := list_to_set (State.reviewed_ids state) in
  let items := _get_items data0 mode reviewed0 in
  match items with
  | [] => Some w
  | _ :: _ =>
      match review_loop items inputs (mkSession 0 reviewed0 data0) with
      | None => None
      | Some s =>
          let state' :=
            State.mk (State.mode state) (elements (reviewed s))
              (State.session_start state) (State.last_shown_id state) in
          Some (save_db (Config.likes_file config) (data s)
                  (_save_state config state' w))
      end
  end.

(** [runs items s inputs s']: the loop of [review], started with the
    variables [s], handles the lines [inputs] one after the other without
    leaving the list, and has the variables [s'] after the last one. *)
Inductive runs (items : list (nat * Item.t))
    : Session -> list (string * string) -> Session -> Prop :=
| runs_done (s : Session) : runs items s [] s
| runs_turn (s s' s'' : Session) (idx : nat) (it : Item.t)
    (line now : string) (rest : list (string * string)) :
    items !! pos s = Some (idx, it) ->
    review_turn idx line now s = Next s' ->
    runs items s' rest s'' ->
    runs items s ((line, now) :: rest) s''.

End Ops.

End Generic.

(** [p1,p2,...]: the pieces joined by commas, [",".join(pieces)]. *)
Definition comma_join (pieces : list string) : string := Json.join "," pieces.

(** * Properties *)

(** ** Substring tests *)

Lemma prefix_occurs (p s : string) :
  String.prefix p s = true <-> exists post : string, s = p +:+ post.
Proof.
  revert s. induction p as [|a p IH]; intros s.
  - split; [intros _; by exists s | intros _; by destruct s].
  - destruct s as [|b s]; simpl.
    + split; [discriminate | intros [post H]; discriminate].
    + destruct (ascii_dec a b) as [->|Hne].
      * rewrite IH. split; intros [post H]; exists post.
        -- by rewrite H.
        -- by injection H.
      * split; [discriminate | intros [post H]; injection H; congruence].
Qed.

Lemma contains_occurs (sub s : string) :
  Py.contains sub s = true <-> Py.occurs_in sub s.
Proof.
  unfold Py.occurs_in. induction s as [|c s IH]; cbn [Py.contains].
  - rewrite orb_false_r, prefix_occurs. split.
    + intros [post H]. exists EmptyString, post. exact H.
    + intros [[|a pre] [post H]]; [by exists post | discriminate].
  - rewrite orb_true_iff, prefix_occurs, IH. split.
    + intros [[post H] | (pre & post & H)].
      * exists EmptyString, post. exact H.
      * exists (String c pre), post. simpl. by rewrite H.
    + intros ([|a pre] & post & H).
      * left. by exists post.
      * right. exists pre, post. simpl in H. by injection H.
Qed.

Lemma contains_false (sub s : string) :
  Py.contains sub s = false <-> ~ Py.occurs_in sub s.
Proof.
  rewrite <- contains_occurs. by destruct (Py.contains sub s).
Qed.

(** ** Classifier *)

Section Classifier.

Variables title text : string.


Lemma auto_tag_loop_filter (combined : string) (rules : list Rule.t)
    (tags : list string) :
  auto_tag_loop combined rules tags =
  tags ++ List.map Rule.name
    (List.filter (fun r => any_keyword_in combined (Rule.keywords r)) rules).
Proof.
  revert tags. induction rules as [|r rules IH]; intros tags; simpl.
  - by rewrite app_nil_r.
  - destruct (any_keyword_in combined (Rule.keywords r)); rewrite IH; simpl.
    + by rewrite <- app_assoc.
    + done.
Qed.


End Classifier.

(** ** The classifier on every interpreter *)

Section GenericClassifier.

Variable ops : Str.ops.
Variables title text : string.

Lemma generic_any_keyword_in (kws : list string) :
  Generic.any_keyword_in ops (Str.lower ops (title +:+ " " +:+ text)) kws = true <->
  exists kw, In kw kws /\ Generic.occurs_ci ops kw (title +:+ " " +:+ text).
Proof.
  unfold Generic.occurs_ci. induction kws as [|kw kws IH]; simpl.
  - split; [discriminate | intros (kw & [] & _)].
  - destruct (Py.contains (Str.lower ops kw) _) eqn:E.
    + split; [intros _ | done]. exists kw. split; [by left|].
      by apply contains_occurs.
    + rewrite IH. apply contains_false in E. split.
      * intros (k & Hk & Ho). exists k. auto.
      * intros (k & [<- | Hk] & Ho); [done | eauto].
Qed.

Lemma generic_auto_tag_loop (combined : string) (rules : list Rule.t)
    (tags : list string) :
  Generic.auto_tag_loop ops combined rules tags =
  tags ++ List.map Rule.name
    (List.filter (fun r => Generic.any_keyword_in ops combined (Rule.keywords r)) rules).
Proof.
  revert tags. induction rules as [|r rules IH]; intros tags; simpl.
  - by rewrite app_nil_r.
  - destruct (Generic.any_keyword_in ops combined (Rule.keywords r)); rewrite IH; simpl.
    + by rewrite <- app_assoc.
    + done.
Qed.

Lemma generic_in_auto_tag_loop (rules : list Rule.t) (t : string) :
  In t (Generic.auto_tag_loop ops (Str.lower ops (title +:+ " " +:+ text)) rules []) <->
  exists rule, In rule rules /\ Generic.rule_matches ops title text rule
               /\ Rule.name rule = t.
Proof.
  rewrite generic_auto_tag_loop. simpl. rewrite in_map_iff. split.
  - intros (r & Hn & Hr). apply filter_In in Hr as [Hr Hm].
    exists r. split; [done|]. split; [|done]. by apply generic_any_keyword_in.
  - intros (r & Hr & Hm & Hn). exists r. split; [done|].
    apply filter_In. split; [done|]. by apply generic_any_keyword_in.
Qed.

End GenericClassifier.

(** A title with a cased letter outside ASCII: on an interpreter whose
    [str.lower] folds ["É"], the rule with the keyword ["école"] matches the
    title ["ÉCOLE de Paris"]. *)
Lemma auto_tag_folds_like_the_interpreter (ops : Str.ops) :
  Str.lower ops "ÉCOLE de Paris " = "école de paris " ->
  Str.lower ops "école" = "école" ->
  Generic.auto_tag ops "ÉCOLE de Paris" EmptyString [Rule.mk "X" ["école"]] = ["X"].
Proof.
  intros Htitle Hkw. unfold Generic.auto_tag.
  change ("ÉCOLE de Paris" +:+ " " +:+ EmptyString) with "ÉCOLE de Paris ".
  rewrite Htitle. simpl. by rewrite Hkw.
Qed.

(** With the operations of ASCII text, the classifier over the interpreter's
    strings is the classifier of module [Py]. *)
Lemma auto_tag_ascii (title text : string) (rules : list Rule.t) :
  Generic.auto_tag Str.ascii title text rules = auto_tag title text rules.
Proof. reflexivity. Qed.

(** C1, as stated, fails on the classifier: the keywords are looked up in the
    title, a space and the text, so the keyword ["world "] occurs nowhere in
    ["hello world"] followed by the empty text and its rule matches all the
    same; and the tag of an item no rule matches is not ["uncategorized"]. *)
Lemma auto_tag_fallback_counterexample :
  (forall rule kw,
     In rule [Rule.mk "X" ["world "]] -> In kw (Rule.keywords rule) ->
     ~ Py.occurs_ci kw ("hello world" +:+ EmptyString))
  /\ auto_tag "hello world" EmptyString [Rule.mk "X" ["world "]] = ["X"]
  /\ auto_tag "hello world" EmptyString [] <> ["uncategorized"].
Proof.
  split; [|split].
  - intros rule kw [<- | []] [<- | []]. by apply contains_false.
  - reflexivity.
  - discriminate.
Qed.

(** C1 (amended): when no keyword of any rule occurs, whatever the case of
    the letters, in the title, a space and the text, [auto_tag] returns the
    one-element list of the fallback tag, ["其他"].  "Occurs whatever the
    case" is the test of the code, [kw.lower() in (title + " " +
    text).lower()], with [str.lower] as the interpreter has it. *)
Theorem auto_tag_fallback (ops : Str.ops) (title text : string)
    (rules : list Rule.t) :
  (forall rule kw,
     In rule rules -> In kw (Rule.keywords rule) ->
     ~ Generic.occurs_ci ops kw (title +:+ " " +:+ text)) ->
  Generic.auto_tag ops title text rules = ["其他"].
Proof.
  intros Hno. unfold Generic.auto_tag.
  destruct (Generic.auto_tag_loop _ _ rules []) as [|t tags] eqn:E; [done|].
  assert (In t (Generic.auto_tag_loop ops (Str.lower ops (title +:+ " " +:+ text))
                  rules []))
    as Hin by (rewrite E; by left).
  apply generic_in_auto_tag_loop in Hin as (rule & Hr & (kw & Hkw & Ho) & _).
  by destruct (Hno rule kw).
Qed.

Lemma auto_tag_fallback_witness :
  Generic.auto_tag Str.ascii "hello world" EmptyString
    (Config.tag_rules Sample.config) = ["其他"].
Proof.
  apply (auto_tag_fallback Str.ascii "hello world" EmptyString).
  intros rule kw [<- | [<- | []]] [<- | []]; by apply contains_false.
Defined.

(** C8, as stated, fails on the classifier: ["foobar"] occurs in the title
    ["foo"] followed by the text ["bar"], yet the rule with that keyword does
    not match, because a space stands between the two. *)
Lemma auto_tag_union_counterexample :
  Py.occurs_ci "foobar" ("foo" +:+ "bar")
  /\ In "foobar" (Rule.keywords (Rule.mk "X" ["foobar"]))
  /\ ~ In "X" (auto_tag "foo" "bar" [Rule.mk "X" ["foobar"]]).
Proof.
  split; [|split].
  - by apply contains_occurs.
  - by left.
  - intros [H | []]. discriminate H.
Qed.

(** C8 (amended): a rule matches iff one of its keywords occurs, whatever
    the case of the letters, in the title, a space and the text
    ([kw.lower() in (title + " " + text).lower()], with [str.lower] as the
    interpreter has it); when some rule matches, the tags returned are the
    names of the matching rules, all of them and nothing else.  For the
    rules X: foo and Y: bar and the title ["foo bar"] the result is X, Y,
    on every interpreter whose [str.lower] leaves these lower-case ASCII
    strings as they are. *)
Theorem auto_tag_union (ops : Str.ops) :
  (forall (title text : string) (rules : list Rule.t),
     (exists rule, In rule rules /\ Generic.rule_matches ops title text rule) ->
     forall t : string,
       In t (Generic.auto_tag ops title text rules) <->
       exists rule, In rule rules /\ Generic.rule_matches ops title text rule
                    /\ Rule.name rule = t)
  /\ (Str.lower ops "foo" = "foo" -> Str.lower ops "bar" = "bar" ->
      Str.lower ops "foo bar " = "foo bar " ->
      Generic.auto_tag ops "foo bar" EmptyString
        [Rule.mk "X" ["foo"]; Rule.mk "Y" ["bar"]]
      = ["X"; "Y"]).
Proof.
  split.
  - intros title text rules (r0 & Hr0 & Hm0) t.
    rewrite <- generic_in_auto_tag_loop. unfold Generic.auto_tag.
    destruct (Generic.auto_tag_loop _ _ rules []) as [|t0 tags] eqn:E; [|done].
    exfalso.
    assert (In (Rule.name r0)
              (Generic.auto_tag_loop ops (Str.lower ops (title +:+ " " +:+ text))
                 rules []))
      as Hin by (apply generic_in_auto_tag_loop; eauto).
    by rewrite E in Hin.
  - intros Hfoo Hbar Hcombined. unfold Generic.auto_tag.
    change ("foo bar" +:+ " " +:+ EmptyString) with "foo bar ".
    rewrite Hcombined. simpl. by rewrite Hfoo, Hbar.
Qed.

Lemma auto_tag_union_witness :
  In "Y" (Generic.auto_tag Str.ascii "Foo BAR" "baz" (Config.tag_rules Sample.config))
  /\ Generic.auto_tag Str.ascii "foo bar" EmptyString
       [Rule.mk "X" ["foo"]; Rule.mk "Y" ["bar"]]
     = ["X"; "Y"].
Proof.
  split.
  - apply (proj1 (auto_tag_union Str.ascii) "Foo BAR" "baz"
             (Config.tag_rules Sample.config)).
    + exists (Rule.mk "X" ["foo"]). split; [by left|].
      exists "foo". split; [by left|]. by apply contains_occurs.
    + exists (Rule.mk "Y" ["bar"]). split; [right; by left|]. split; [|done].
      exists "bar". split; [by left|]. by apply contains_occurs.
  - apply (proj2 (auto_tag_union Str.ascii)); reflexivity.
Defined.

(** ** Store of documents *)

Lemma load_save_db (path : string) (data : Db.t) (w : World) :
  load_db path (save_db path data w) = data.
Proof. unfold load_db, save_db. simpl. by rewrite lookup_insert_eq. Qed.

Lemma load_save_db_ne (path path' : string) (data : Db.t) (w : World) :
  path <> path' -> load_db path' (save_db path data w) = load_db path' w.
Proof. intros H. unfold load_db, save_db. simpl. by rewrite lookup_insert_ne. Qed.

(** ** Merge engine *)

Section Merge.

Variable config : Config.t.
Variable timestamp : string.

(** The notes the loop appends an item for. *)
Lemma process_notes_loop_spec (existing_ids : gset string)
    (notes : list Note.t) (items : list Item.t) (n : nat) :
  process_notes_loop config timestamp existing_ids notes items n =
  (items ++ (new_item config timestamp
              <$> filter (fun note => Note.note_id note ∉ existing_ids) notes),
   n + length (filter (fun note => Note.note_id note ∉ existing_ids) notes)).
Proof.
  revert items n. induction notes as [|note notes IH]; intros items n; simpl.
  - by rewrite app_nil_r, Nat.add_0_r.
  - case_bool_decide as Hin.
    + rewrite IH. by rewrite filter_cons_False by tauto.
    + rewrite IH. rewrite filter_cons_True by done. simpl.
      rewrite <- app_assoc. simpl. f_equal. lia.
Qed.

Lemma process_notes_spec (notes : list Note.t) (db_path : string) (w : World) :
  load_db db_path (_process_notes notes config db_path timestamp w).1
  = Db.mk (Db.items (load_db db_path w)
           ++ (new_item config timestamp <$> fresh_notes notes (load_db db_path w)))
      (Some timestamp)
  /\ (_process_notes notes config db_path timestamp w).2
     = length (fresh_notes notes (load_db db_path w)).
Proof.
  unfold _process_notes. rewrite process_notes_loop_spec. simpl.
  rewrite load_save_db.
  assert (filter (fun note => Note.note_id note
                     ∉ (list_to_set (Item.id <$> Db.items (load_db db_path w)) : gset string))
            notes
          = fresh_notes notes (load_db db_path w))
    as ->; [|done].
  apply list_filter_iff. intros note. unfold item_ids.
  by rewrite elem_of_list_to_set.
Qed.

Lemma new_item_id (note : Note.t) :
  Item.id (new_item config timestamp note) = Note.note_id note.
Proof. reflexivity. Qed.

Lemma new_item_ids (notes : list Note.t) :
  Item.id <$> (new_item config timestamp <$> notes) = note_ids notes.
Proof. unfold note_ids. rewrite <- list_fmap_compose. by apply list_fmap_ext. Qed.

End Merge.

Lemma filter_none {A : Type} (P : A -> Prop) `{forall x, Decision (P x)}
    (l : list A) :
  (forall x, x ∈ l -> ~ P x) -> filter P l = [].
Proof.
  induction l as [|x l IH]; intros Hl; [done|].
  rewrite filter_cons_False by (apply Hl; by left).
  apply IH. intros y Hy. apply Hl. by right.
Qed.

Lemma count_occ_once (l : list string) (x : string) :
  NoDup l -> x ∈ l -> count_occ string_dec l x = 1.
Proof.
  intros Hnd Hin. apply list_elem_of_In in Hin.
  apply (count_occ_In string_dec) in Hin.
  apply NoDup_ListNoDup in Hnd.
  pose proof (proj1 (NoDup_count_occ string_dec l) Hnd x). lia.
Qed.

Section MergeTheorems.

Variables (notes : list Note.t) (config : Config.t) (db_path : string).
Variable w : World.

Lemma fresh_ids_NoDup :
  NoDup (note_ids notes) ->
  NoDup (note_ids (fresh_notes notes (load_db db_path w))).
Proof.
  intros Hnd. apply (sublist_NoDup _ (note_ids notes)); [done|].
  apply fmap_sublist, sublist_filter.
Qed.

(** After a merge every id of [notes] is in the collection. *)
Lemma merged_ids_present (timestamp : string) (note : Note.t) :
  note ∈ notes ->
  Note.note_id note
    ∈ item_ids (load_db db_path (_process_notes notes config db_path timestamp w).1).
Proof.
  intros Hin.
  destruct (process_notes_spec config timestamp notes db_path w) as [-> _].
  unfold item_ids. simpl. rewrite fmap_app, new_item_ids, elem_of_app.
  destruct (decide (Note.note_id note ∈ item_ids (load_db db_path w)))
    as [Hold | Hnew]; [by left | right].
  apply list_elem_of_fmap. exists note. split; [done|].
  apply list_elem_of_filter. done.
Qed.

(** C3: merge is additive-only and idempotent.  For a sequence of records
    with pairwise distinct ids, the merged collection is the old one followed
    by new items whose ids were not in it (no existing item is changed, a
    record with a known id adds nothing); after one merge and after two
    merges of the same batch each new id is carried by exactly one item; the
    second merge returns 0 and adds nothing; [last_fetch] is set to the
    clock reading by both merges. *)
Theorem merge_additive_idempotent (t1 t2 : string) :
  NoDup (note_ids notes) ->
  let old := load_db db_path w in
  let r1 := _process_notes notes config db_path t1 w in
  let db1 := load_db db_path r1.1 in
  let r2 := _process_notes notes config db_path t2 r1.1 in
  let db2 := load_db db_path r2.1 in
  (exists added : list Item.t,
      Db.items db1 = Db.items old ++ added
      /\ r1.2 = length added
      /\ forall it, it ∈ added -> Item.id it ∉ item_ids old)
  /\ (forall nid, nid ∈ note_ids notes -> nid ∉ item_ids old ->
        count_id nid db1 = 1 /\ count_id nid db2 = 1)
  /\ r2.2 = 0
  /\ Db.items db2 = Db.items db1
  /\ Db.last_fetch db1 = Some t1
  /\ Db.last_fetch db2 = Some t2.
Proof.
  intros Hnd old r1 db1 r2 db2.
  destruct (process_notes_spec config t1 notes db_path w) as [E1 N1].
  destruct (process_notes_spec config t2 notes db_path r1.1) as [E2 N2].
  fold r1 db1 in E1, N1, E2, N2. fold r2 db2 in E2, N2. fold old in E1, N1.
  assert (fresh_notes notes db1 = []) as Hnone.
  { apply filter_none. intros note Hin Hout. apply Hout.
    by apply merged_ids_present. }
  rewrite Hnone in E2, N2. simpl in E2, N2. rewrite app_nil_r in E2.
  assert (forall nid, nid ∈ note_ids notes -> nid ∉ item_ids old ->
            count_id nid db1 = 1) as Hcount.
  { intros nid Hin Hout. unfold count_id, item_ids. rewrite E1. simpl.
    rewrite fmap_app, new_item_ids, count_occ_app.
    rewrite (proj1 (count_occ_not_In string_dec _ nid))
      by (by rewrite <- list_elem_of_In).
    simpl. apply count_occ_once; [by apply fresh_ids_NoDup|].
    apply list_elem_of_fmap in Hin as (note & -> & Hin).
    apply list_elem_of_fmap. exists note. split; [done|].
    by apply list_elem_of_filter. }
  split; [|split; [|split; [|split; [|split]]]].
  - exists (new_item config t1 <$> fresh_notes notes old). rewrite E1. simpl.
    split; [done|]. split; [by rewrite length_fmap|].
    intros it Hit. apply list_elem_of_fmap in Hit as (note & -> & Hnote).
    by apply list_elem_of_filter in Hnote as [Hout _].
  - intros nid Hin Hout. split; [by apply Hcount|].
    unfold count_id, item_ids. rewrite E2. simpl. by apply Hcount.
  - done.
  - by rewrite E2.
  - by rewrite E1.
  - by rewrite E2.
Qed.

End MergeTheorems.

(** The scenario of the design document: the collection holds the items 1
    and 2, the capture yields the records 2 and 3. *)
Lemma merge_additive_idempotent_witness :
  let notes := [Sample.note "2" "two"; Sample.note "3" EmptyString] in
  let r1 := _process_notes notes Sample.config "data/likes.json"
              "2024-05-02 10:00" Sample.world in
  let r2 := _process_notes notes Sample.config "data/likes.json"
              "2024-05-03 10:00" r1.1 in
  r1.2 = 1 /\ r2.2 = 0
  /\ item_ids (load_db "data/likes.json" r1.1) = ["1"; "2"; "3"]
  /\ Db.items (load_db "data/likes.json" r2.1)
     = Db.items (load_db "data/likes.json" r1.1)
  /\ Db.last_fetch (load_db "data/likes.json" r2.1) = Some "2024-05-03 10:00".
Proof.
  intros notes r1 r2.
  assert (NoDup (note_ids notes)) as Hnd.
  { by_evaluation. }
  destruct (merge_additive_idempotent notes Sample.config "data/likes.json"
              Sample.world "2024-05-02 10:00" "2024-05-03 10:00" Hnd)
    as (_ & _ & H2 & Hitems & _ & Hlast).
  split; [reflexivity|]. split; [exact H2|]. split; [reflexivity|].
  split; [exact Hitems | exact Hlast].
Defined.

(** C9: an item the merge adds to a collection is [new_item] of one of the
    records: it has no tags, an empty desc and an empty note, it is not
    reviewed and not removed (the dict has no key [removed]), [first_seen]
    and [saved_at] are both the clock reading of the merge, and its title is
    not empty: without [display_title] and [title], it is ["笔记 "] followed
    by the first eight characters of the id. *)
Theorem merged_item_fields (notes : list Note.t) (config : Config.t)
    (db_path timestamp : string) (w : World) (it : Item.t) :
  it ∈ Db.items (load_db db_path (_process_notes notes config db_path timestamp w).1) ->
  it ∈ Db.items (load_db db_path w)
  \/ exists note, note ∈ notes
       /\ it = new_item config timestamp note
       /\ Item.tags it = []
       /\ Item.desc it = EmptyString
       /\ Item.note it = EmptyString
       /\ Item.reviewed it = false
       /\ Item.removed it = None
       /\ Item.is_removed it = false
       /\ Item.first_seen it = timestamp
       /\ Item.saved_at it = timestamp
       /\ Item.title it <> EmptyString
       /\ (Note.display_title note = EmptyString ->
           Note.title note = EmptyString ->
           Item.title it = "笔记 " +:+ Py.take_chars 8 (Note.note_id note)).
Proof.
  destruct (process_notes_spec config timestamp notes db_path w) as [-> _].
  simpl. rewrite elem_of_app. intros [Hold | Hnew]; [by left | right].
  apply list_elem_of_fmap in Hnew as (note & -> & Hnote).
  apply list_elem_of_filter in Hnote as [_ Hnote].
  exists note. repeat (split; [done|]). split.
  - simpl. destruct (Note.display_title note); [|done].
    destruct (Note.title note); done.
  - intros Hd Ht. simpl. by rewrite Hd, Ht.
Qed.

Lemma merged_item_fields_witness :
  let it := new_item Sample.config "2024-05-02 10:00"
              (Sample.note "65f0c1a2000000001203e4b7" EmptyString) in
  Item.tags it = [] /\ Item.reviewed it = false /\ Item.is_removed it = false
  /\ Item.first_seen it = "2024-05-02 10:00"
  /\ Item.saved_at it = "2024-05-02 10:00"
  /\ Item.title it <> EmptyString.
Proof.
  intros it.
  assert (it ∈ Db.items (load_db "data/likes.json"
                 (_process_notes
                    [Sample.note "65f0c1a2000000001203e4b7" EmptyString]
                    Sample.config "data/likes.json" "2024-05-02 10:00"
                    Sample.world).1)) as Hin.
  { apply list_elem_of_lookup. exists 2. by vm_compute. }
  destruct (merged_item_fields _ _ _ _ _ _ Hin)
    as [Hold | (note & _ & _ & Htags & _ & _ & Hrev & _ & Hrem & Hfirst & Hsaved & Htitle & _)].
  - apply list_elem_of_In in Hold. vm_compute in Hold.
    destruct Hold as [H | [H | []]]; discriminate H.
  - done.
Defined.

(** ** Deduplication of the captured records *)

Lemma dedup_loop_spec (all_notes : list Note.t) (seen : gset string)
    (unique : list Note.t) :
  (forall nid, nid ∈ seen <-> nid ∈ note_ids unique) ->
  NoDup (note_ids unique) ->
  (forall note, note ∈ unique -> Note.note_id note <> EmptyString) ->
  NoDup (note_ids (dedup_loop all_notes seen unique))
  /\ (forall note, note ∈ dedup_loop all_notes seen unique ->
        Note.note_id note <> EmptyString)
  /\ (forall note, note ∈ all_notes -> Note.note_id note <> EmptyString ->
        Note.note_id note ∈ note_ids (dedup_loop all_notes seen unique)).
Proof.
  revert seen unique.
  induction all_notes as [|note rest IH]; intros seen unique Hseen Hnd Hne; simpl.
  - split; [done|]. split; [done|]. intros note Hin. by apply elem_of_nil in Hin.
  - destruct (Py.truthy (Note.note_id note)) eqn:Htruthy; simpl.
    + case_bool_decide as Hin; simpl.
      * destruct (IH seen unique Hseen Hnd Hne) as (H1 & H2 & H3).
        split; [done|]. split; [done|].
        intros n [-> | Hn]%elem_of_cons Hn'; [|by apply H3].
        clear -Hin Hseen. apply Hseen in Hin.
        revert Hin. generalize (Note.note_id note). intros nid Hin.
        induction rest as [|r rest IHr] in seen, unique, Hin |- *; simpl; [done|].
        destruct (Py.truthy (Note.note_id r) && _); apply IHr.
        -- unfold note_ids. rewrite fmap_app, elem_of_app. by left.
        -- done.
      * assert (forall nid, nid ∈ ({[Note.note_id note]} ∪ seen : gset string)
                  <-> nid ∈ note_ids (unique ++ [note])) as Hseen'.
        { intros nid. unfold note_ids. rewrite fmap_app, elem_of_app. simpl.
          rewrite elem_of_union, elem_of_singleton, list_elem_of_singleton.
          rewrite Hseen. unfold note_ids. tauto. }
        assert (NoDup (note_ids (unique ++ [note]))) as Hnd'.
        { unfold note_ids. rewrite fmap_app. simpl. apply NoDup_app.
          split; [done|]. split; [|apply NoDup_singleton].
          intros nid Hn ->%list_elem_of_singleton. apply Hin. by apply Hseen. }
        assert (forall n, n ∈ unique ++ [note] -> Note.note_id n <> EmptyString)
          as Hne'.
        { intros n [Hn | ->%list_elem_of_singleton]%elem_of_app; [by apply Hne|].
          by destruct (Note.note_id note). }
        destruct (IH _ _ Hseen' Hnd' Hne') as (H1 & H2 & H3).
        split; [done|]. split; [done|].
        intros n [-> | Hn]%elem_of_cons Hn'; [|by apply H3].
        assert (Note.note_id note ∈ note_ids (unique ++ [note])) as Hhere.
        { unfold note_ids. rewrite fmap_app, elem_of_app. right. by left. }
        clear -Hhere. revert Hhere.
        generalize (Note.note_id note) ({[Note.note_id note]} ∪ seen)
          (unique ++ [note]).
        intros nid seen' unique' Hin.
        induction rest as [|r rest IHr] in seen', unique', Hin |- *; simpl; [done|].
        destruct (Py.truthy (Note.note_id r) && _); apply IHr.
        -- unfold note_ids. rewrite fmap_app, elem_of_app. by left.
        -- done.
    + destruct (IH seen unique Hseen Hnd Hne) as (H1 & H2 & H3).
      split; [done|]. split; [done|].
      intros n [-> | Hn]%elem_of_cons Hn'; [|by apply H3].
      by destruct (Note.note_id note).
Qed.

(** C10: the merge step computes the set of existing ids once and never
    extends it, so two records with the same new id are both appended (here
    the id 3, twice); the ids of the merged collection are pairwise distinct
    when those of the collection and those of the records are; and the
    capture step returns records with pairwise distinct, non-empty ids. *)
Theorem merge_unique_ids_need_deduplicated_input :
  (let notes := [Sample.note "3" "first"; Sample.note "3" "second"] in
   let r := _process_notes notes Sample.config "data/likes.json"
              "2024-05-02 10:00" Sample.world in
   NoDup (item_ids (load_db "data/likes.json" Sample.world))
   /\ r.2 = 2
   /\ item_ids (load_db "data/likes.json" r.1) = ["1"; "2"; "3"; "3"]
   /\ ~ NoDup (item_ids (load_db "data/likes.json" r.1)))
  /\ (forall (notes : list Note.t) (config : Config.t)
        (db_path timestamp : string) (w : World),
        NoDup (item_ids (load_db db_path w)) ->
        NoDup (note_ids notes) ->
        NoDup (item_ids
                 (load_db db_path
                    (_process_notes notes config db_path timestamp w).1)))
  /\ (forall all_notes : list Note.t,
        NoDup (note_ids (deduplicate all_notes))
        /\ forall note, note ∈ deduplicate all_notes ->
             Note.note_id note <> EmptyString).
Proof.
  split; [|split].
  - cbv zeta. split; [|split; [|split]].
    + by_evaluation.
    + reflexivity.
    + reflexivity.
    + intros Hnd. apply (bool_decide_pack _) in Hnd. by vm_compute in Hnd.
  - intros notes config db_path timestamp w Hold Hnew.
    destruct (process_notes_spec config timestamp notes db_path w) as [-> _].
    unfold item_ids at 1. simpl. rewrite fmap_app, new_item_ids.
    apply NoDup_app. split; [done|]. split.
    + intros nid Hin (note & -> & Hnote)%list_elem_of_fmap.
      by apply list_elem_of_filter in Hnote as [Hout _].
    + by apply fresh_ids_NoDup.
  - intros all_notes.
    destruct (dedup_loop_spec all_notes ∅ []) as (H1 & H2 & _).
    + intros nid. unfold note_ids. simpl. set_solver.
    + constructor.
    + intros note Hin. by apply elem_of_nil in Hin.
    + done.
Qed.

Lemma merge_unique_ids_witness :
  NoDup (item_ids
           (load_db "data/likes.json"
              (_process_notes
                 (deduplicate [Sample.note "2" "two"; Sample.note "3" "three";
                               Sample.note "3" "three"; Sample.note EmptyString "x"])
                 Sample.config "data/likes.json" "2024-05-02 10:00"
                 Sample.world).1)).
Proof.
  destruct merge_unique_ids_need_deduplicated_input as (_ & Hmerge & Hdedup).
  apply Hmerge.
  - by_evaluation.
  - apply Hdedup.
Defined.

(** ** Tagging pass *)

Lemma tag_all_loop_lookup (rules : list Rule.t) (items : list Item.t)
    (i : nat) (item : Item.t) :
  items !! i = Some item ->
  (tag_all_loop rules items).1 !! i
  = Some match Item.tags item with
         | [] => Item.set_tags (auto_tag (Item.title item) (Item.desc item) rules) item
         | _ :: _ => item
         end.
Proof.
  revert i. induction items as [|it items IH]; intros i Hi; [done|].
  simpl. destruct (tag_all_loop rules items) as [rest' n] eqn:E.
  destruct i as [|i]; simpl in *.
  - injection Hi as ->. by destruct (Item.tags item).
  - specialize (IH i Hi). by destruct (Item.tags it).
Qed.

Lemma tag_all_loop_length (rules : list Rule.t) (items : list Item.t) :
  length (tag_all_loop rules items).1 = length items.
Proof.
  induction items as [|it items IH]; [done|]. simpl.
  destruct (tag_all_loop rules items) as [rest' n].
  destruct (Item.tags it); simpl in *; by rewrite IH.
Qed.

Lemma tag_all_items (config : Config.t) (collection : string) (w : World) :
  Db.items (load_db (collection_file config collection)
              (tag_all config collection w))
  = (tag_all_loop (Config.tag_rules config)
       (Db.items (load_db (collection_file config collection) w))).1.
Proof.
  unfold tag_all. fold (collection_file config collection).
  destruct (tag_all_loop _ _) as [items' n]. by rewrite load_save_db.
Qed.

(** C4: tag stability.  The tagging pass leaves an item with a non-empty tag
    list as it is, whatever the rule set, and gives an item with an empty tag
    list the tags of the classifier; a second pass, under any rule set,
    changes no item. *)
Theorem tag_all_stable (config : Config.t) (collection : string) (w : World)
    (i : nat) (item : Item.t) :
  Db.items (load_db (collection_file config collection) w) !! i = Some item ->
  let after := fun w' => Db.items (load_db (collection_file config collection) w') in
  (Item.tags item <> [] -> after (tag_all config collection w) !! i = Some item)
  /\ (Item.tags item = [] ->
      after (tag_all config collection w) !! i
      = Some (Item.set_tags
                (auto_tag (Item.title item) (Item.desc item)
                   (Config.tag_rules config)) item))
  /\ (forall config' : Config.t,
        collection_file config' collection = collection_file config collection ->
        after (tag_all config' collection (tag_all config collection w)) !! i
        = after (tag_all config collection w) !! i).
Proof.
  intros Hi after. unfold after.
  pose proof (tag_all_loop_lookup (Config.tag_rules config) _ _ _ Hi) as H1.
  rewrite <- tag_all_items in H1.
  split; [|split].
  - intros Hne. rewrite H1. by destruct (Item.tags item).
  - intros He. rewrite H1. by rewrite He.
  - intros config' Hpath.
    pose proof (tag_all_loop_lookup (Config.tag_rules config') _ _ _ H1) as H2.
    rewrite <- Hpath in H2.
    rewrite <- tag_all_items in H2. rewrite Hpath in H2.
    rewrite H2, H1. f_equal.
    destruct (Item.tags item) eqn:E; [|by rewrite E].
    simpl. unfold auto_tag. by destruct (auto_tag_loop _ _ _).
Qed.

(** The second item of the sample collection carries the tag X; no rule
    matches its title, and the pass leaves it as it is. *)
Lemma tag_all_stable_witness :
  Db.items (load_db "data/likes.json" (tag_all Sample.config "likes" Sample.world))
    !! 1
  = Some (Sample.item "2" "two" ["X"]).
Proof.
  refine (proj1 (tag_all_stable Sample.config "likes" Sample.world 1
                   (Sample.item "2" "two" ["X"]) _) _).
  - reflexivity.
  - discriminate.
Defined.

(** ** Eligible items *)

Lemma elem_of_get_items_from (i0 : nat) (items : list Item.t) (mode : string)
    (reviewed_ids : gset string) (i : nat) (item : Item.t) :
  (i, item) ∈ get_items_from i0 items mode reviewed_ids <->
  exists k, i = i0 + k
    /\ items !! k = Some item
    /\ (Item.id item ∉ reviewed_ids)
    /\ (mode = "ai" -> primary_tag ∈ Item.tags item)
    /\ (mode = "other" -> primary_tag ∉ Item.tags item).
Proof.
  revert i0. induction items as [|it rest IH]; intros i0.
  - simpl. split; [by intros ?%elem_of_nil | by intros (k & _ & ? & _)].
  - assert ((exists k, i = i0 + k
               /\ (it :: rest) !! k = Some item
               /\ (Item.id item ∉ reviewed_ids)
               /\ (mode = "ai" -> primary_tag ∈ Item.tags item)
               /\ (mode = "other" -> primary_tag ∉ Item.tags item))
            <-> (i = i0 /\ item = it
                 /\ (Item.id it ∉ reviewed_ids)
                 /\ (mode = "ai" -> primary_tag ∈ Item.tags it)
                 /\ (mode = "other" -> primary_tag ∉ Item.tags it))
                \/ (i, item) ∈ get_items_from (S i0) rest mode reviewed_ids) as ->.
    { rewrite IH. split.
      - intros ([|k] & -> & Hk & H); simpl in Hk.
        + left. injection Hk as ->. split; [lia | done].
        + right. exists k. split; [lia | done].
      - intros [(-> & -> & H) | (k & -> & Hk & H)].
        + exists 0. split; [lia | done].
        + exists (S k). split; [lia | done]. }
    simpl. case_bool_decide as Hrev.
    { split; [by right | intros [(_ & _ & H & _) | H]; done]. }
    destruct (String.eqb_spec mode "ai") as [-> | Hai]; simpl.
    + case_bool_decide as Htag; simpl.
      * rewrite elem_of_cons. split.
        -- intros [[= -> ->] | H]; [left | by right]. done.
        -- intros [(-> & -> & _) | H]; [by left | by right].
      * split; [by right | intros [(_ & _ & _ & H & _) | H]; [|done]].
        exfalso. by apply Htag, H.
    + destruct (String.eqb_spec mode "other") as [-> | Hother]; simpl.
      * case_bool_decide as Htag; simpl.
        -- split; [by right | intros [(_ & _ & _ & _ & H) | H]; [|done]].
           exfalso. by apply H.
        -- rewrite elem_of_cons. split.
           ++ intros [[= -> ->] | H]; [left | by right]. done.
           ++ intros [(-> & -> & _) | H]; [by left | by right].
      * rewrite elem_of_cons. split.
        -- intros [[= -> ->] | H]; [left | by right]. done.
        -- intros [(-> & -> & _) | H]; [by left | by right].
Qed.

Lemma elem_of_get_items (data : Db.t) (mode : string)
    (reviewed_ids : gset string) (i : nat) (item : Item.t) :
  (i, item) ∈ _get_items data mode reviewed_ids <->
  Db.items data !! i = Some item
  /\ (Item.id item ∉ reviewed_ids)
  /\ (mode = "ai" -> primary_tag ∈ Item.tags item)
  /\ (mode = "other" -> primary_tag ∉ Item.tags item).
Proof.
  unfold _get_items. rewrite elem_of_get_items_from. split.
  - by intros (k & -> & H).
  - intros H. by exists i.
Qed.

(** C6: mode filter partition.  For a collection and a set of reviewed ids,
    an entry of the list of mode ["ai"] is an item that is not reviewed and
    carries the primary tag, one of mode ["other"] an item that is not
    reviewed and lacks it, one of mode ["all"] an item that is not reviewed;
    the first two lists share no entry, and an entry is in the third iff it
    is in one of them. *)
Theorem mode_filter_partition (data : Db.t) (reviewed_ids : gset string) :
  let A := _get_items data "ai" reviewed_ids in
  let B := _get_items data "other" reviewed_ids in
  let ALL := _get_items data "all" reviewed_ids in
  (forall e, ~ (e ∈ A /\ e ∈ B))
  /\ (forall e, e ∈ ALL <-> e ∈ A \/ e ∈ B)
  /\ (forall i item, (i, item) ∈ A <->
        Db.items data !! i = Some item /\ (Item.id item ∉ reviewed_ids)
        /\ primary_tag ∈ Item.tags item)
  /\ (forall i item, (i, item) ∈ B <->
        Db.items data !! i = Some item /\ (Item.id item ∉ reviewed_ids)
        /\ primary_tag ∉ Item.tags item)
  /\ (forall i item, (i, item) ∈ ALL <->
        Db.items data !! i = Some item /\ Item.id item ∉ reviewed_ids).
Proof.
  intros A B ALL.
  assert (forall i item, (i, item) ∈ A <->
            Db.items data !! i = Some item /\ (Item.id item ∉ reviewed_ids)
            /\ primary_tag ∈ Item.tags item) as HA.
  { intros i item. unfold A. rewrite elem_of_get_items. split.
    - intros (H1 & H2 & H3 & _). auto.
    - intros (H1 & H2 & H3). repeat split; auto; discriminate. }
  assert (forall i item, (i, item) ∈ B <->
            Db.items data !! i = Some item /\ (Item.id item ∉ reviewed_ids)
            /\ primary_tag ∉ Item.tags item) as HB.
  { intros i item. unfold B. rewrite elem_of_get_items. split.
    - intros (H1 & H2 & _ & H3). auto.
    - intros (H1 & H2 & H3). repeat split; auto; discriminate. }
  assert (forall i item, (i, item) ∈ ALL <->
            Db.items data !! i = Some item /\ (Item.id item ∉ reviewed_ids)) as HALL.
  { intros i item. unfold ALL. rewrite elem_of_get_items. split.
    - intros (H1 & H2 & _). auto.
    - intros (H1 & H2). repeat split; auto; discriminate. }
  split; [|split; [|done]].
  - intros [i item] [Ha Hb]. apply HA in Ha as (_ & _ & Ha).
    apply HB in Hb as (_ & _ & Hb). done.
  - intros [i item]. rewrite HA, HB, HALL.
    destruct (decide (primary_tag ∈ Item.tags item)); tauto.
Qed.

(** ** Review session *)

(** What a turn that goes on keeps: the reviewed ids, the number of items,
    and a position that moves by one step at most. *)
Lemma review_turn_next (idx : nat) (line now : string) (s s' : Session) :
  review_turn idx line now s = Next s' ->
  reviewed s ⊆ reviewed s'
  /\ length (Db.items (data s')) = length (Db.items (data s))
  /\ (pos s' = pos s \/ pos s' = S (pos s)).
Proof.
  unfold review_turn. intros H.
  destruct (Db.items (data s) !! idx) as [item|]; [|done].
  repeat match type of H with
         | context [if ?b then _ else _] => destruct b
         | context [match ?o with Some _ => _ | None => _ end] => destruct o
         end;
    try discriminate; injection H as <-; simpl;
    rewrite ?length_insert; split; try set_solver; auto.
Qed.

(** Every entry of the list of [_get_items] refers to an item of the
    collection. *)
Lemma get_items_in_range (data : Db.t) (mode : string)
    (reviewed_ids : gset string) (k idx : nat) (it : Item.t) :
  _get_items data mode reviewed_ids !! k = Some (idx, it) ->
  idx < length (Db.items data).
Proof.
  intros Hk. apply list_elem_of_lookup_2 in Hk.
  apply elem_of_get_items in Hk as [Hk _]. by apply lookup_lt_Some in Hk.
Qed.

(** ** The review session on every interpreter *)

Section GenericReview.

Variable ops : Str.ops.

(** What a turn that goes on keeps: the reviewed ids, the number of items,
    and a position that moves by one step at most. *)
Lemma generic_turn_next (idx : nat) (line now : string) (s s' : Session) :
  Generic.review_turn ops idx line now s = Next s' ->
  reviewed s ⊆ reviewed s'
  /\ length (Db.items (data s')) = length (Db.items (data s))
  /\ (pos s' = pos s \/ pos s' = S (pos s)).
Proof.
  unfold Generic.review_turn. intros H.
  destruct (Db.items (data s) !! idx) as [item|]; [|done].
  repeat match type of H with
         | context [if ?b then _ else _] => destruct b
         | context [match ?o with Some _ => _ | None => _ end] => destruct o
         end;
    try discriminate; injection H as <-; simpl;
    rewrite ?length_insert; split; try set_solver; auto.
Qed.

Lemma generic_runs_invariant (items : list (nat * Item.t)) (s s' : Session)
    (inputs : list (string * string)) :
  Generic.runs ops items s inputs s' ->
  reviewed s ⊆ reviewed s'
  /\ length (Db.items (data s')) = length (Db.items (data s)).
Proof.
  induction 1 as [s | s s' s'' idx it line now rest Hpos Hturn Hruns IH].
  - done.
  - destruct (generic_turn_next _ _ _ _ _ Hturn) as (H1 & H2 & _).
    destruct IH as [H3 H4]. split; [set_solver | congruence].
Qed.

Lemma generic_loop_reviewed (items : list (nat * Item.t))
    (inputs : list (string * string)) (s s' : Session) :
  Generic.review_loop ops items inputs s = Some s' -> reviewed s ⊆ reviewed s'.
Proof.
  revert s. induction inputs as [|[line now] rest IH]; intros s; simpl.
  - destruct (items !! pos s) as [[idx it]|]; [done|]. by intros [= ->].
  - destruct (items !! pos s) as [[idx it]|]; [|by intros [= ->]].
    destruct (Generic.review_turn ops idx line now s) as [s1| |] eqn:Hturn.
    + intros H. apply IH in H.
      destruct (generic_turn_next _ _ _ _ _ Hturn) as (H1 & _). set_solver.
    + by intros [= ->].
    + done.
Qed.

(** The loop handles the lines of a run, and leaves at the first line on
    which the turn breaks. *)
Lemma generic_loop_break (items : list (nat * Item.t)) (s0 s : Session)
    (pre rest : list (string * string)) (idx : nat) (it : Item.t)
    (line now : string) :
  Generic.runs ops items s0 pre s ->
  items !! pos s = Some (idx, it) ->
  Generic.review_turn ops idx line now s = Break ->
  Generic.review_loop ops items (pre ++ (line, now) :: rest) s0 = Some s.
Proof.
  intros Hruns Hpos Hbreak.
  induction Hruns as [s | s s' s'' idx' it' line' now' rest' Hpos' Hturn Hruns IH].
  - simpl. by rewrite Hpos, Hbreak.
  - simpl. rewrite Hpos', Hturn. by apply IH.
Qed.

(** The loop raises when the lines of a run are used up inside the list. *)
Lemma generic_loop_eof (items : list (nat * Item.t)) (s0 s : Session)
    (inputs : list (string * string)) :
  Generic.runs ops items s0 inputs s ->
  is_Some (items !! pos s) ->
  Generic.review_loop ops items inputs s0 = None.
Proof.
  intros Hruns [[idx it] Hpos].
  induction Hruns as [s | s s1 s2 idx1 it1 line now rest Hpos1 Hturn Hruns IH].
  - simpl. by rewrite Hpos.
  - simpl. rewrite Hpos1, Hturn. by apply IH.
Qed.

Lemma generic_quit_turn (idx : nat) (item : Item.t) (line now : string)
    (s : Session) :
  Db.items (data s) !! idx = Some item ->
  Generic.command ops line ∈ ["q"; "quit"] ->
  Generic.review_turn ops idx line now s = Break.
Proof.
  intros Hitem Hcmd. unfold Generic.review_turn. rewrite Hitem.
  fold (Generic.command ops line).
  apply elem_of_cons in Hcmd as [-> | Hcmd]; [done|].
  by apply list_elem_of_singleton in Hcmd as ->.
Qed.

Lemma generic_keep_remove_turn (idx : nat) (item : Item.t) (line now : string)
    (s : Session) :
  Db.items (data s) !! idx = Some item ->
  Generic.command ops line ∈ ["k"; "keep"; EmptyString; "r"; "remove"] ->
  exists s', Generic.review_turn ops idx line now s = Next s'
    /\ Item.id item ∈ reviewed s'
    /\ pos s' = S (pos s)
    /\ (Item.reviewed <$> Db.items (data s') !! idx) = Some true.
Proof.
  intros Hitem Hcmd. unfold Generic.review_turn. rewrite Hitem.
  fold (Generic.command ops line).
  assert (idx < length (Db.items (data s))) as Hlt
    by (by apply lookup_lt_Some in Hitem).
  repeat (apply elem_of_cons in Hcmd as [-> | Hcmd]);
    [| | | | | by apply elem_of_nil in Hcmd];
    (eexists; split; [reflexivity|]; simpl;
     split; [set_solver|]; split; [done|];
     by rewrite list_lookup_insert_eq).
Qed.

Lemma generic_skip_turn (idx : nat) (item : Item.t) (line now : string)
    (s : Session) :
  Db.items (data s) !! idx = Some item ->
  Generic.command ops line ∈ ["s"; "skip"] ->
  Generic.review_turn ops idx line now s
  = Next (mkSession (S (pos s)) (reviewed s) (data s)).
Proof.
  intros Hitem Hcmd. unfold Generic.review_turn. rewrite Hitem.
  fold (Generic.command ops line).
  apply elem_of_cons in Hcmd as [-> | Hcmd]; [done|].
  by apply list_elem_of_singleton in Hcmd as ->.
Qed.

(** [review] in terms of its loop, when the list is not empty. *)
Lemma generic_review_unfold (config : Config.t) (mode start : string)
    (inputs : list (string * string)) (w : World) :
  eligible config mode w <> [] ->
  Generic.review ops config mode start inputs w
  = match Generic.review_loop ops (eligible config mode w) inputs
            (start_session config w) with
    | None => None
    | Some s =>
        Some (save_db (Config.likes_file config) (data s)
                (_save_state config
                   (State.mk mode (elements (reviewed s)) (Some start)
                      (State.last_shown_id (_load_state config w))) w))
    end.
Proof.
  intros Hne. unfold Generic.review. cbn zeta. simpl State.reviewed_ids.
  simpl State.mode. simpl State.session_start. simpl State.last_shown_id.
  change (_get_items (load_db (Config.likes_file config) w) mode
            (list_to_set (State.reviewed_ids (_load_state config w))))
    with (eligible config mode w).
  change (mkSession 0 (list_to_set (State.reviewed_ids (_load_state config w)))
            (load_db (Config.likes_file config) w))
    with (start_session config w).
  by destruct (eligible config mode w) as [|e es] eqn:E.
Qed.

Lemma generic_review_quit (config : Config.t) (mode start : string)
    (pre rest : list (string * string)) (line now : string) (w : World)
    (s : Session) :
  Generic.runs ops (eligible config mode w) (start_session config w) pre s ->
  pos s < length (eligible config mode w) ->
  Generic.command ops line ∈ ["q"; "quit"] ->
  Generic.review ops config mode start (pre ++ (line, now) :: rest) w
  = Some (save_db (Config.likes_file config) (data s)
            (_save_state config
               (State.mk mode (elements (reviewed s)) (Some start)
                  (State.last_shown_id (_load_state config w))) w)).
Proof.
  intros Hruns Hpos Hcmd.
  destruct (lookup_lt_is_Some_2 _ _ Hpos) as [[idx it] Hentry].
  assert (is_Some (Db.items (data s) !! idx)) as [item Hitem].
  { apply lookup_lt_is_Some_2.
    destruct (generic_runs_invariant _ _ _ _ Hruns) as [_ ->].
    apply get_items_in_range in Hentry. exact Hentry. }
  pose proof (generic_quit_turn idx item line now s Hitem Hcmd) as Hbreak.
  pose proof (generic_loop_break _ _ _ pre rest _ _ _ _ Hruns Hentry Hbreak)
    as Hloop.
  rewrite generic_review_unfold, Hloop; [done|].
  intros E. rewrite E in Hpos. simpl in Hpos. lia.
Qed.

End GenericReview.

(** A line that ends with the ideographic space U+3000 (the bytes 227, 128,
    128): on an interpreter whose [str.strip] drops it, the line [k] followed
    by that space is the command KEEP. *)
Lemma keep_with_ideographic_space (ops : Str.ops) (idx : nat) (item : Item.t)
    (now : string) (s : Session) :
  let line := "k" +:+ String "227" (String "128" (String "128" EmptyString)) in
  Db.items (data s) !! idx = Some item ->
  Str.strip ops line = "k" ->
  Str.lower ops "k" = "k" ->
  exists s', Generic.review_turn ops idx line now s = Next s'
    /\ Item.id item ∈ reviewed s'
    /\ pos s' = S (pos s).
Proof.
  intros line Hitem Hstrip Hlower.
  destruct (generic_keep_remove_turn ops idx item line now s Hitem)
    as (s' & Hturn & Hid & Hpos & _).
  - unfold Generic.command. rewrite Hstrip, Hlower. by left.
  - by exists s'.
Qed.

(** With the operations of ASCII text, the session over the interpreter's
    strings is the session of module [Py]. *)
Lemma review_ascii (config : Config.t) (mode start : string)
    (inputs : list (string * string)) (w : World) :
  Generic.review Str.ascii config mode start inputs w
  = review config mode start inputs w.
Proof. reflexivity. Qed.

(** C7: review monotonicity and quit persistence.  No turn and no run of the
    loop removes an id from the reviewed set; KEEP (also the empty line) and
    REMOVE add the id of the current item, mark it reviewed and advance;
    SKIP advances and changes neither the set nor the collection; on QUIT
    before the end of the list, [review] writes the session state, whose
    reviewed ids are those of the set as it is then (the ids of the state
    loaded at the start among them), and the collection as the turns before
    have left it.  The command of a line is [line.strip().lower()] as the
    interpreter computes it. *)
Theorem review_monotone_quit_persists (ops : Str.ops) :
  (forall idx line now s s',
     Generic.review_turn ops idx line now s = Next s' -> reviewed s ⊆ reviewed s')
  /\ (forall items inputs s s',
        Generic.review_loop ops items inputs s = Some s' ->
        reviewed s ⊆ reviewed s')
  /\ (forall idx item line now s,
        Db.items (data s) !! idx = Some item ->
        Generic.command ops line ∈ ["k"; "keep"; EmptyString; "r"; "remove"] ->
        exists s', Generic.review_turn ops idx line now s = Next s'
          /\ Item.id item ∈ reviewed s'
          /\ pos s' = S (pos s)
          /\ (Item.reviewed <$> Db.items (data s') !! idx) = Some true)
  /\ (forall idx item line now s,
        Db.items (data s) !! idx = Some item ->
        Generic.command ops line ∈ ["s"; "skip"] ->
        Generic.review_turn ops idx line now s
        = Next (mkSession (S (pos s)) (reviewed s) (data s)))
  /\ (forall config mode start pre line now rest w s,
        Generic.runs ops (eligible config mode w) (start_session config w) pre s ->
        pos s < length (eligible config mode w) ->
        Generic.command ops line ∈ ["q"; "quit"] ->
        exists w' st,
          Generic.review ops config mode start (pre ++ (line, now) :: rest) w
          = Some w'
          /\ db_files w' !! Config.likes_file config = Some (data s)
          /\ state_files w' !! Config.review_state_file config = Some st
          /\ (forall nid, nid ∈ State.reviewed_ids st <-> nid ∈ reviewed s)
          /\ (forall nid, nid ∈ State.reviewed_ids (_load_state config w) ->
                nid ∈ State.reviewed_ids st)).
Proof.
  split; [|split; [|split; [|split]]].
  - intros idx line now s s' H. by apply generic_turn_next in H as [H _].
  - apply generic_loop_reviewed.
  - apply generic_keep_remove_turn.
  - apply generic_skip_turn.
  - intros config mode start pre line now rest w s Hruns Hpos Hcmd.
    eexists _, _. split; [by apply generic_review_quit|].
    split; [apply lookup_insert_eq|]. split; [apply lookup_insert_eq|].
    simpl. split.
    + intros nid. apply elem_of_elements.
    + intros nid Hin. apply elem_of_elements.
      destruct (generic_runs_invariant _ _ _ _ _ Hruns) as [Hsub _].
      apply Hsub. simpl. by apply elem_of_list_to_set.
Qed.

(** The session of the design document, left with [q] after the first item
    is kept and the second one tagged. *)
Lemma review_monotone_quit_persists_witness :
  exists w' st,
    Generic.review Str.ascii Sample.config "all" "2024-05-02 10:00"
      ([("k", "2024-05-02 10:01"); ("tag foo,bar", "2024-05-02 10:02")]
       ++ ("Q", "2024-05-02 10:03") :: [("r", "2024-05-02 10:04")])
      Sample.world = Some w'
    /\ state_files w' !! "data/review_state.json" = Some st
    /\ (forall nid, nid ∈ State.reviewed_ids st <-> nid ∈ ({[ "1" ]} : gset string)).
Proof.
  destruct (review_monotone_quit_persists Str.ascii) as (_ & _ & _ & _ & Hquit).
  assert (exists s,
            Generic.runs Str.ascii (eligible Sample.config "all" Sample.world)
              (start_session Sample.config Sample.world)
              [("k", "2024-05-02 10:01"); ("tag foo,bar", "2024-05-02 10:02")] s
            /\ pos s = 1 /\ reviewed s = {[ "1" ]}) as (s & Hruns & Hpos & Hrev).
  { eexists. split; [|split].
    - eapply Generic.runs_turn; [reflexivity | reflexivity |].
      eapply Generic.runs_turn; [reflexivity | reflexivity |].
      apply Generic.runs_done.
    - reflexivity.
    - vm_compute. reflexivity. }
  destruct (Hquit Sample.config "all" "2024-05-02 10:00" _ "Q"
              "2024-05-02 10:03" [("r", "2024-05-02 10:04")] Sample.world s Hruns)
    as (w' & st & Hreview & _ & Hstate & Hids & _).
  - rewrite Hpos. vm_compute. lia.
  - by_evaluation.
  - exists w', st. split; [exact Hreview|]. split; [exact Hstate|].
    intros nid. rewrite <- Hrev. apply Hids.
Defined.

(** C5 fails on the code: the line is lowered before the command is read off
    it, so the note stored for the line [n Read Later] is [read later], not
    the text the user typed.  The position, the reviewed set and the
    reviewed flag of the item are as before. *)
Theorem note_command_lowers_text :
  let s := start_session Sample.config Sample.world in
  exists s',
    review_turn 0 "n Read Later" "2024-05-02 10:01" s = Next s'
    /\ (Item.note <$> Db.items (data s') !! 0) = Some "read later"
    /\ (Item.note <$> Db.items (data s') !! 0) <> Some "Read Later"
    /\ pos s' = pos s
    /\ reviewed s' = reviewed s
    /\ (Item.reviewed <$> Db.items (data s') !! 0) = Some false.
Proof.
  eexists. split; [reflexivity|].
  split; [reflexivity|]. split; [discriminate|]. split; [reflexivity|].
  split; [vm_compute; reflexivity | reflexivity].
Qed.

(** ** Saving in place *)

Lemma first_bytes_all (s : string) : Disk.first_bytes (String.length s) s = s.
Proof. induction s as [|c s IH]; simpl; [done | by rewrite IH]. Qed.

(** The empty text is no JSON document, whatever the fuel of the parser. *)
Lemma parse_value_empty (fuel : nat) : Json.parse_value fuel EmptyString = None.
Proof. by destruct fuel. Qed.

Lemma loads_empty : Json.loads EmptyString = None.
Proof. reflexivity. Qed.

(** C2, as stated, fails on the code: [save_db] writes the file in place.
    The sample collection is saved, then a save of the collection with one
    more item is interrupted: with no byte or with forty bytes written, the
    file is there and [load_db] fails on it, so the collection persisted
    before is lost.  The forty bytes are no JSON document whatever the fuel
    of the parser.  (Run to its end, the save leaves a file that loads.) *)
Lemma save_db_crash_counterexample :
  let path := "data/likes.json" in
  let old := db_to_json Sample.db in
  let new :=
    db_to_json
      (Db.mk (Db.items Sample.db ++ [Sample.item "3" "three" []])
         (Some "2024-05-02 10:00")) in
  let fs := Disk.save_db path old ∅ in
  Disk.load_db path fs = Disk.Loaded old
  /\ Disk.load_db path (Disk.save_db_upto (Disk.Written 0) path new fs)
     = Disk.JSONDecodeError
  /\ Disk.load_db path (Disk.save_db_upto (Disk.Written 40) path new fs)
     = Disk.JSONDecodeError
  /\ (forall fuel,
        Json.parse_value fuel (Disk.first_bytes 40 (Json.dumps new)) = None)
  /\ Disk.load_db path (Disk.save_db path new fs) = Disk.Loaded new.
Proof.
  cbv zeta. split; [|split; [|split; [|split]]];
    try (vm_compute; reflexivity).
  intros fuel. do 12 (destruct fuel as [|fuel]; [reflexivity|]).
  vm_compute. reflexivity.
Qed.

(** C2 (amended): [save_db] builds the text of the collection and writes it
    in place, with no temporary file.  A save that runs to its end leaves
    that text at the location.  A save that is interrupted changes no other
    file, and leaves at the location the old content or the first bytes of
    the new text; once the file is opened and before the first byte is
    written, the file is empty and the next [load_db] fails on it, whatever
    was persisted there. *)
Theorem save_db_writes_in_place (path : string) (data : Json.t)
    (fs : gmap string string) :
  Disk.save_db path data fs !! path = Some (Json.dumps data)
  /\ Disk.save_db_upto (Disk.Written (String.length (Json.dumps data))) path data fs
     = Disk.save_db path data fs
  /\ (forall (p : Disk.progress) (other : string),
        other <> path ->
        Disk.save_db_upto p path data fs !! other = fs !! other)
  /\ (forall p : Disk.progress,
        Disk.save_db_upto p path data fs !! path = fs !! path
        \/ exists k,
             Disk.save_db_upto p path data fs !! path
             = Some (Disk.first_bytes k (Json.dumps data)))
  /\ Disk.save_db_upto (Disk.Written 0) path data fs !! path = Some EmptyString
  /\ Disk.load_db path (Disk.save_db_upto (Disk.Written 0) path data fs)
     = Disk.JSONDecodeError.
Proof.
  unfold Disk.save_db, Disk.save_db_upto, Disk.write_text, Disk.load_db.
  split; [apply lookup_insert_eq|].
  split; [simpl; by rewrite first_bytes_all|].
  split.
  { intros [|k] other Hne; simpl; [done|]. by rewrite lookup_insert_ne. }
  split.
  { intros [|k]; simpl; [by left | right]. exists k. apply lookup_insert_eq. }
  simpl. by rewrite lookup_insert_eq.
Qed.

Lemma save_db_writes_in_place_witness :
  let fs := Disk.save_db "data/likes.json" (db_to_json Sample.db) ∅ in
  Disk.save_db_upto (Disk.Written 40) "data/bookmarks.json"
    (db_to_json Db.empty) fs !! "data/likes.json"
  = fs !! "data/likes.json".
Proof.
  intros fs.
  apply (save_db_writes_in_place "data/bookmarks.json" (db_to_json Db.empty) fs).
  discriminate.
Defined.

(** * Further properties *)

(** ** Sorted tag lists *)

Lemma str_lt_irrefl (a : string) : ~ str_lt a a.
Proof.
  unfold str_lt. intros H. pose proof (String.compare_antisym a a) as Ha.
  rewrite H in Ha. discriminate.
Qed.

Lemma str_lt_le (a b : string) : str_lt a b -> String.le a b.
Proof. unfold str_lt, String.le, String.leb. by intros ->. Qed.

Lemma str_lt_trans (a b c : string) : str_lt a b -> str_lt b c -> str_lt a c.
Proof.
  intros Hab Hbc.
  assert (String.le a c) as Hle.
  { etrans; by apply str_lt_le. }
  unfold str_lt. destruct (String.compare a c) eqn:E; [|done|].
  - apply String.compare_eq_iff in E. subst c. exfalso.
    assert (a = b) as -> by (apply (anti_symm String.le); by apply str_lt_le).
    by apply (str_lt_irrefl b).
  - unfold String.le, String.leb in Hle. by rewrite E in Hle.
Qed.

Lemma str_lt_flip (a b : string) : String.compare a b = Gt -> str_lt b a.
Proof.
  unfold str_lt. intros H. rewrite String.compare_antisym, H. done.
Qed.

Lemma elem_of_insert_sorted (x y : string) (l : list string) :
  y ∈ Py.insert_sorted x l <-> y = x \/ y ∈ l.
Proof.
  induction l as [|z l IH]; simpl.
  - rewrite list_elem_of_singleton, elem_of_nil. tauto.
  - destruct (String.compare x z) eqn:E.
    + apply String.compare_eq_iff in E. subst z.
      rewrite elem_of_cons. tauto.
    + rewrite !elem_of_cons. tauto.
    + rewrite !elem_of_cons, IH. tauto.
Qed.

Lemma elem_of_sorted_set (x : string) (l : list string) :
  x ∈ Py.sorted_set l <-> x ∈ l.
Proof.
  unfold Py.sorted_set. induction l as [|y l IH]; simpl; [done|].
  rewrite elem_of_insert_sorted, IH, elem_of_cons. tauto.
Qed.

Lemma insert_sorted_sorted (x : string) (l : list string) :
  StronglySorted str_lt l -> StronglySorted str_lt (Py.insert_sorted x l).
Proof.
  induction 1 as [|z l Hs IH Hz]; simpl.
  - repeat constructor.
  - destruct (String.compare x z) eqn:E.
    + by constructor.
    + constructor; [by constructor|]. constructor; [done|].
      eapply Forall_impl; [exact Hz|]. intros y Hy. by apply (str_lt_trans x z y).
    + constructor; [done|]. apply Forall_forall. intros y Hy.
      apply elem_of_insert_sorted in Hy as [-> | Hy].
      * by apply str_lt_flip.
      * by apply (proj1 (Forall_forall _ _) Hz).
Qed.

Lemma sorted_set_sorted (l : list string) :
  StronglySorted str_lt (Py.sorted_set l).
Proof.
  unfold Py.sorted_set. induction l as [|x l IH]; simpl; [constructor|].
  by apply insert_sorted_sorted.
Qed.

Lemma strictly_sorted_NoDup (l : list string) :
  StronglySorted str_lt l -> NoDup l.
Proof.
  induction 1 as [|x l Hs IH Hx]; constructor; [|done].
  intros Hin. apply (str_lt_irrefl x).
  by apply (proj1 (Forall_forall _ _) Hx).
Qed.

(** Two strictly ascending lists with the same elements are the same list. *)
Lemma strictly_sorted_unique (l1 l2 : list string) :
  StronglySorted str_lt l1 -> StronglySorted str_lt l2 ->
  (forall x, x ∈ l1 <-> x ∈ l2) -> l1 = l2.
Proof.
  intros H1. revert l2. induction H1 as [|x l1 Hs1 IH Hx]; intros l2 H2 Heq.
  - destruct l2 as [|y l2]; [done|]. exfalso.
    apply (elem_of_nil y), Heq. by left.
  - destruct H2 as [|y l2 Hs2 Hy].
    + exfalso. apply (elem_of_nil x), Heq. by left.
    + assert (x = y) as <-.
      { assert (x ∈ y :: l2) as Hxin by (apply Heq; by left).
        assert (y ∈ x :: l1) as Hyin by (apply Heq; by left).
        apply elem_of_cons in Hxin as [? | Hxin]; [done|].
        apply elem_of_cons in Hyin as [? | Hyin]; [done|].
        exfalso. apply (str_lt_irrefl x). apply (str_lt_trans x y x).
        - by apply (proj1 (Forall_forall _ _) Hx).
        - by apply (proj1 (Forall_forall _ _) Hy). }
      f_equal. apply IH; [done|]. intros z. split; intros Hz.
      * assert (z ∈ x :: l2) as Hz' by (apply Heq; by right).
        apply elem_of_cons in Hz' as [-> | Hz']; [|done].
        exfalso. apply (str_lt_irrefl x).
        by apply (proj1 (Forall_forall _ _) Hx).
      * assert (z ∈ x :: l1) as Hz' by (apply Heq; by right).
        apply elem_of_cons in Hz' as [-> | Hz']; [|done].
        exfalso. apply (str_lt_irrefl x).
        by apply (proj1 (Forall_forall _ _) Hy).
Qed.

(** [sorted(set(l))] has the elements of [l], each once, in strictly
    ascending order; it depends on the elements of [l] only, not on their
    order or repetition. *)
Lemma sorted_set_canonical (l : list string) :
  (forall x, x ∈ Py.sorted_set l <-> x ∈ l)
  /\ StronglySorted str_lt (Py.sorted_set l)
  /\ NoDup (Py.sorted_set l)
  /\ (forall l' : list string,
        (forall x, x ∈ l <-> x ∈ l') -> Py.sorted_set l = Py.sorted_set l').
Proof.
  split; [intros x; apply elem_of_sorted_set|].
  split; [apply sorted_set_sorted|].
  split; [apply strictly_sorted_NoDup, sorted_set_sorted|].
  intros l' Heq. apply strictly_sorted_unique; try apply sorted_set_sorted.
  intros x. by rewrite !elem_of_sorted_set.
Qed.

Lemma sorted_set_absorb (l extra : list string) :
  Py.sorted_set (Py.sorted_set (l ++ extra) ++ extra) = Py.sorted_set (l ++ extra).
Proof.
  apply sorted_set_canonical. intros x.
  rewrite !elem_of_app, elem_of_sorted_set, elem_of_app. tauto.
Qed.

(** ** Tagging one item *)

Lemma tag_item_loop_none (item_id : string) (tags : list string)
    (items : list Item.t) :
  item_id ∉ (Item.id <$> items) -> tag_item_loop item_id tags items = None.
Proof.
  induction items as [|item rest IH]; [done|]. simpl. intros Hout.
  destruct (String.eqb_spec (Item.id item) item_id) as [E | E].
  - exfalso. apply Hout. simpl. rewrite E. by left.
  - rewrite IH; [done|]. intros Hin. apply Hout. by right.
Qed.

Lemma tag_item_loop_first (item_id : string) (tags : list string)
    (items : list Item.t) (i : nat) (item : Item.t) :
  items !! i = Some item ->
  Item.id item = item_id ->
  (forall j it, j < i -> items !! j = Some it -> Item.id it <> item_id) ->
  tag_item_loop item_id tags items
  = Some (<[i := Item.set_tags (Py.sorted_set (Item.tags item ++ tags)) item]> items).
Proof.
  revert i. induction items as [|it rest IH]; intros i Hi Hid Hfirst; [done|].
  destruct i as [|i]; simpl in *.
  - injection Hi as ->. by rewrite (proj2 (String.eqb_eq _ _) Hid).
  - destruct (String.eqb_spec (Item.id it) item_id) as [E | E].
    + exfalso. by apply (Hfirst 0 it); [lia | |].
    + rewrite (IH i Hi Hid); [done|].
      intros j it2 Hj. apply (Hfirst (S j) it2). lia.
Qed.

(** Some item carries an id that is among the ids of a list: the first one. *)
Lemma first_with_id (item_id : string) (items : list Item.t) :
  item_id ∈ (Item.id <$> items) ->
  exists i item, items !! i = Some item /\ Item.id item = item_id
    /\ forall j it, j < i -> items !! j = Some it -> Item.id it <> item_id.
Proof.
  induction items as [|it rest IH]; [by intros ?%elem_of_nil|].
  intros Hin. destruct (decide (Item.id it = item_id)) as [E | E].
  - exists 0, it. split; [done|]. split; [done|]. intros j it2 Hj. lia.
  - simpl in Hin. apply elem_of_cons in Hin as [Hin | Hin]; [done|].
    destruct (IH Hin) as (i & item & Hi & Hid & Hfirst).
    exists (S i), item. split; [done|]. split; [done|].
    intros [|j] it2 Hj Hit2; simpl in Hit2.
    + by injection Hit2 as <-.
    + apply (Hfirst j it2); [lia | done].
Qed.

(** X1: [tag_item] on an id that no item of the collection carries writes
    nothing: the world is as before. *)
Theorem tag_item_not_found (config : Config.t) (collection item_id : string)
    (tags : list string) (w : World) :
  item_id ∉ item_ids (load_db (collection_file config collection) w) ->
  tag_item config collection item_id tags w = w.
Proof.
  intros Hout. unfold tag_item. fold (collection_file config collection).
  by rewrite tag_item_loop_none.
Qed.

Lemma tag_item_not_found_witness :
  tag_item Sample.config "likes" "9" ["X"] Sample.world = Sample.world.
Proof.
  apply tag_item_not_found. by_evaluation.
Defined.

(** X2: [tag_item] on an id of the collection changes the first item that
    carries it, and only its tags: the new tag list holds the old tags and
    the given ones, each once, in strictly ascending order; every other
    item and [last_fetch] are as before; running it again with the same
    tags changes nothing. *)
Theorem tag_item_adds_tags (config : Config.t) (collection item_id : string)
    (tags : list string) (w : World) :
  item_id ∈ item_ids (load_db (collection_file config collection) w) ->
  let db := load_db (collection_file config collection) w in
  let w1 := tag_item config collection item_id tags w in
  let db1 := load_db (collection_file config collection) w1 in
  exists i item new_tags,
    Db.items db !! i = Some item
    /\ Item.id item = item_id
    /\ (forall j it, j < i -> Db.items db !! j = Some it -> Item.id it <> item_id)
    /\ Db.items db1 = <[i := Item.set_tags new_tags item]> (Db.items db)
    /\ Db.last_fetch db1 = Db.last_fetch db
    /\ (forall t, t ∈ new_tags <-> t ∈ Item.tags item \/ t ∈ tags)
    /\ StronglySorted str_lt new_tags
    /\ tag_item config collection item_id tags w1 = w1.
Proof.
  intros Hin db w1 db1.
  destruct (first_with_id _ _ Hin) as (i & item & Hi & Hid & Hfirst).
  fold db in Hi, Hfirst.
  exists i, item, (Py.sorted_set (Item.tags item ++ tags)).
  assert (w1 = save_db (collection_file config collection)
                 (Db.mk (<[i := Item.set_tags (Py.sorted_set (Item.tags item ++ tags)) item]>
                           (Db.items db)) (Db.last_fetch db)) w) as Hw1.
  { unfold w1, tag_item. fold (collection_file config collection). fold db.
    by rewrite (tag_item_loop_first _ _ _ i item). }
  assert (db1 = Db.mk (<[i := Item.set_tags (Py.sorted_set (Item.tags item ++ tags)) item]>
                         (Db.items db)) (Db.last_fetch db)) as Hdb1.
  { unfold db1. by rewrite Hw1, load_save_db. }
  split; [done|]. split; [done|]. split; [done|].
  split; [by rewrite Hdb1|]. split; [by rewrite Hdb1|].
  split; [intros t; by rewrite elem_of_sorted_set, elem_of_app|].
  split; [apply sorted_set_sorted|].
  assert (i < length (Db.items db)) as Hlt by (by apply lookup_lt_Some in Hi).
  unfold tag_item at 1. fold (collection_file config collection). fold db1.
  rewrite (tag_item_loop_first item_id tags (Db.items db1) i
             (Item.set_tags (Py.sorted_set (Item.tags item ++ tags)) item)).
  - simpl. rewrite sorted_set_absorb. rewrite Hdb1. simpl.
    rewrite list_insert_insert_eq. rewrite Hw1. unfold save_db. simpl.
    by rewrite insert_insert_eq.
  - rewrite Hdb1. simpl. by rewrite list_lookup_insert_eq.
  - done.
  - intros j it Hj. rewrite Hdb1. simpl.
    rewrite list_lookup_insert_ne by lia. by apply Hfirst.
Qed.

Lemma tag_item_adds_tags_witness :
  let w1 := tag_item Sample.config "likes" "2" ["b"; "X"; "a"] Sample.world in
  tag_item Sample.config "likes" "2" ["b"; "X"; "a"] w1 = w1.
Proof.
  assert ("2" ∈ item_ids (load_db (collection_file Sample.config "likes")
                             Sample.world)) as Hin by by_evaluation.
  destruct (tag_item_adds_tags Sample.config "likes" "2" ["b"; "X"; "a"]
              Sample.world Hin) as (i & item & new_tags & H).
  apply H.
Defined.

(** ** Unliking a post *)

Lemma find_item_none (i0 : nat) (item_id : string) (items : list Item.t) :
  item_id ∉ (Item.id <$> items) -> find_item i0 item_id items = None.
Proof.
  revert i0. induction items as [|item rest IH]; intros i0 Hout; [done|]. simpl.
  destruct (String.eqb_spec (Item.id item) item_id) as [E | E].
  - exfalso. apply Hout. simpl. rewrite E. by left.
  - apply IH. intros Hin. apply Hout. by right.
Qed.

Lemma find_item_first (i0 : nat) (item_id : string) (items : list Item.t)
    (i : nat) (item : Item.t) :
  items !! i = Some item ->
  Item.id item = item_id ->
  (forall j it, j < i -> items !! j = Some it -> Item.id it <> item_id) ->
  find_item i0 item_id items = Some (i0 + i, item).
Proof.
  revert i0 i. induction items as [|it rest IH]; intros i0 i Hi Hid Hfirst; [done|].
  destruct i as [|i]; simpl in *.
  - injection Hi as ->. rewrite (proj2 (String.eqb_eq _ _) Hid).
    by rewrite Nat.add_0_r.
  - destruct (String.eqb_spec (Item.id it) item_id) as [E | E].
    + exfalso. by apply (Hfirst 0 it); [lia | |].
    + rewrite (IH (S i0) i Hi Hid).
      * do 2 f_equal. lia.
      * intros j it2 Hj. apply (Hfirst (S j) it2). lia.
Qed.

(** X3: [unlike_post] on an id that no liked item carries writes nothing
    (and opens no browser): the world is as before. *)
Theorem unlike_post_not_found (config : Config.t) (item_id : string)
    (like_btn : bool) (now : string) (w : World) :
  item_id ∉ item_ids (load_db (Config.likes_file config) w) ->
  unlike_post config item_id like_btn now w = w.
Proof.
  intros Hout. unfold unlike_post. by rewrite find_item_none.
Qed.

Lemma unlike_post_not_found_witness :
  unlike_post Sample.config "9" true "2024-05-02 10:00" Sample.world
  = Sample.world.
Proof.
  apply unlike_post_not_found. by_evaluation.
Defined.

(** What [unlike_post] writes when the id is found. *)
Lemma unlike_post_found (config : Config.t) (item_id : string)
    (like_btn : bool) (now : string) (w : World) :
  item_id ∈ item_ids (load_db (Config.likes_file config) w) ->
  exists i item,
    Db.items (load_db (Config.likes_file config) w) !! i = Some item
    /\ Item.id item = item_id
    /\ (forall j it, j < i ->
          Db.items (load_db (Config.likes_file config) w) !! j = Some it ->
          Item.id it <> item_id)
    /\ unlike_post config item_id like_btn now w
       = save_db (Config.likes_file config)
           (put_item i (Item.set_reviewed true (Item.set_removed true now item))
              (load_db (Config.likes_file config) w))
           w.
Proof.
  intros Hin.
  destruct (first_with_id _ _ Hin) as (i & item & Hi & Hid & Hfirst).
  exists i, item. split; [done|]. split; [done|]. split; [done|].
  unfold unlike_post.
  by rewrite (find_item_first 0 item_id _ i item).
Qed.

(** X4: [unlike_post] on an id of the liked items marks the first item that
    carries it: [removed] and [reviewed] are set and [removed_at] is the
    clock reading, whether or not the browser found a like button to click;
    the other fields of the item, every other item, [last_fetch] and the
    review session state are as before. *)
Theorem unlike_post_marks_removed (config : Config.t) (item_id : string)
    (like_btn : bool) (now : string) (w : World) :
  item_id ∈ item_ids (load_db (Config.likes_file config) w) ->
  let db := load_db (Config.likes_file config) w in
  let w1 := unlike_post config item_id like_btn now w in
  let db1 := load_db (Config.likes_file config) w1 in
  exists i item,
    Db.items db !! i = Some item
    /\ Item.id item = item_id
    /\ (forall j it, j < i -> Db.items db !! j = Some it -> Item.id it <> item_id)
    /\ Db.items db1
       = <[i := Item.set_reviewed true (Item.set_removed true now item)]>
           (Db.items db)
    /\ Db.last_fetch db1 = Db.last_fetch db
    /\ state_files w1 = state_files w
    /\ w1 = unlike_post config item_id (negb like_btn) now w.
Proof.
  intros Hin db w1 db1.
  destruct (unlike_post_found config item_id like_btn now w Hin)
    as (i & item & Hi & Hid & Hfirst & Hw1).
  destruct (unlike_post_found config item_id (negb like_btn) now w Hin)
    as (i' & item' & Hi' & Hid' & Hfirst' & Hw1').
  assert (i' = i) as ->.
  { destruct (Nat.lt_trichotomy i' i) as [Hlt | [E | Hlt]]; [|done|].
    - by destruct (Hfirst i' item' Hlt Hi').
    - by destruct (Hfirst' i item Hlt Hi). }
  assert (item' = item) as -> by congruence.
  exists i, item.
  split; [done|]. split; [done|]. split; [done|].
  unfold db1, w1. rewrite Hw1, load_save_db. simpl.
  split; [done|]. split; [done|]. split; [done|].
  by rewrite Hw1'.
Qed.

Lemma unlike_post_marks_removed_witness :
  state_files (unlike_post Sample.config "2" false "2024-05-02 10:00" Sample.world)
  = state_files Sample.world
  /\ unlike_post Sample.config "2" false "2024-05-02 10:00" Sample.world
     = unlike_post Sample.config "2" true "2024-05-02 10:00" Sample.world.
Proof.
  assert ("2" ∈ item_ids (load_db (Config.likes_file Sample.config) Sample.world))
    as Hin by by_evaluation.
  destruct (unlike_post_marks_removed Sample.config "2" false
              "2024-05-02 10:00" Sample.world Hin)
    as (i & item & _ & _ & _ & _ & _ & Hstate & Hbtn).
  split; [exact Hstate | exact Hbtn].
Defined.

(** X5: the review session looks at the reviewed ids of the session state
    only, not at the flags of the items: an item that [unlike_post] has
    marked removed and reviewed is still on the list of the next review
    session of mode ["all"], unless its id is among the reviewed ids. *)
Theorem unliked_item_still_eligible (config : Config.t) (item_id : string)
    (like_btn : bool) (now : string) (w : World) :
  item_id ∈ item_ids (load_db (Config.likes_file config) w) ->
  item_id ∉ State.reviewed_ids (_load_state config w) ->
  exists i item,
    (i, item) ∈ eligible config "all" (unlike_post config item_id like_btn now w)
    /\ Item.id item = item_id
    /\ Item.reviewed item = true
    /\ Item.is_removed item = true.
Proof.
  intros Hin Hout.
  destruct (unlike_post_found config item_id like_btn now w Hin)
    as (i & item & Hi & Hid & _ & Hw1).
  exists i, (Item.set_reviewed true (Item.set_removed true now item)).
  split; [|done].
  unfold eligible. apply elem_of_get_items. split.
  - rewrite Hw1, load_save_db. simpl.
    apply list_lookup_insert_eq. by apply lookup_lt_Some in Hi.
  - split.
    + unfold _load_state. rewrite Hw1. simpl. fold (_load_state config w).
      rewrite elem_of_list_to_set. simpl. by rewrite Hid.
    + split; discriminate.
Qed.

Lemma unliked_item_still_eligible_witness :
  exists i item,
    (i, item) ∈ eligible Sample.config "all"
                  (unlike_post Sample.config "2" true "2024-05-02 10:00"
                     Sample.world)
    /\ Item.id item = "2"
    /\ Item.reviewed item = true
    /\ Item.is_removed item = true.
Proof.
  apply unliked_item_still_eligible; by_evaluation.
Defined.

(** ** Merge and capture *)

(** X6: whatever the records, [_process_notes] only appends: the old items
    are the first items of the merged collection, in their order; the count
    it returns is the number of items added, at most the number of records;
    the id of every record is in the merged collection; no other collection
    and no session state is changed. *)
Theorem process_notes_appends (notes : list Note.t) (config : Config.t)
    (db_path timestamp : string) (w : World) :
  let old := load_db db_path w in
  let r := _process_notes notes config db_path timestamp w in
  let db1 := load_db db_path r.1 in
  Db.items old `prefix_of` Db.items db1
  /\ length (Db.items db1) = length (Db.items old) + r.2
  /\ r.2 <= length notes
  /\ (forall note, note ∈ notes -> Note.note_id note ∈ item_ids db1)
  /\ (forall other, other <> db_path -> load_db other r.1 = load_db other w)
  /\ state_files r.1 = state_files w.
Proof.
  intros old r db1.
  destruct (process_notes_spec config timestamp notes db_path w) as [E N].
  fold r db1 old in E, N.
  split; [rewrite E; by eexists|].
  split; [rewrite E, N; simpl; by rewrite length_app, length_fmap|].
  split; [rewrite N; apply length_filter|].
  split; [intros note Hin; by apply merged_ids_present|].
  unfold r, _process_notes.
  destruct (process_notes_loop _ _ _ _ _ _) as [items1 n]. simpl.
  split; [|done]. intros other Hne. by apply load_save_db_ne.
Qed.

(** A merge changes the length of its collection by the count it returns
    and touches nothing else. *)
Lemma process_notes_frame (notes : list Note.t) (config : Config.t)
    (db_path timestamp : string) (w : World) :
  length (Db.items (load_db db_path (_process_notes notes config db_path timestamp w).1))
  = length (Db.items (load_db db_path w))
    + (_process_notes notes config db_path timestamp w).2
  /\ (forall other, other <> db_path ->
        load_db other (_process_notes notes config db_path timestamp w).1
        = load_db other w)
  /\ state_files (_process_notes notes config db_path timestamp w).1 = state_files w.
Proof.
  destruct (process_notes_spec config timestamp notes db_path w) as [E N].
  split; [rewrite E, N; simpl; by rewrite length_app, length_fmap|].
  unfold _process_notes.
  destruct (process_notes_loop _ _ _ _ _ _) as [items1 n]. simpl.
  split; [|done]. intros other Hne. by apply load_save_db_ne.
Qed.

(** A merge of records with pairwise distinct ids keeps the ids of the
    collection pairwise distinct. *)
Lemma merged_ids_NoDup (notes : list Note.t) (config : Config.t)
    (db_path timestamp : string) (w : World) :
  NoDup (item_ids (load_db db_path w)) ->
  NoDup (note_ids notes) ->
  NoDup (item_ids
           (load_db db_path (_process_notes notes config db_path timestamp w).1)).
Proof.
  intros Hold Hnew.
  destruct (process_notes_spec config timestamp notes db_path w) as [-> _].
  unfold item_ids at 1. simpl. rewrite fmap_app, new_item_ids.
  apply NoDup_app. split; [done|]. split.
  - intros nid Hin (note & -> & Hnote)%list_elem_of_fmap.
    by apply list_elem_of_filter in Hnote as [Hout _].
  - by apply fresh_ids_NoDup.
Qed.

(** ** Deduplication *)

Lemma dedup_loop_app (all_notes : list Note.t) (seen : gset string)
    (unique : list Note.t) :
  dedup_loop all_notes seen unique = unique ++ dedup_loop all_notes seen [].
Proof.
  revert seen unique. induction all_notes as [|note rest IH]; intros seen unique.
  - simpl. by rewrite app_nil_r.
  - simpl. destruct (Py.truthy _ && _).
    + rewrite (IH _ (unique ++ [note])), (IH _ ([] ++ [note])).
      by rewrite <- app_assoc.
    + apply IH.
Qed.

Lemma dedup_loop_sublist (all_notes : list Note.t) (seen : gset string) :
  dedup_loop all_notes seen [] `sublist_of` all_notes.
Proof.
  revert seen. induction all_notes as [|note rest IH]; intros seen; simpl.
  - done.
  - destruct (Py.truthy _ && _).
    + rewrite dedup_loop_app. simpl. by apply sublist_skip.
    + by apply sublist_cons.
Qed.

Lemma dedup_loop_fixed (all_notes : list Note.t) (seen : gset string) :
  NoDup (note_ids all_notes) ->
  (forall note, note ∈ all_notes ->
     Note.note_id note <> EmptyString /\ Note.note_id note ∉ seen) ->
  dedup_loop all_notes seen [] = all_notes.
Proof.
  revert seen. induction all_notes as [|note rest IH]; intros seen Hnd Hok; [done|].
  simpl. destruct (Hok note) as [Hne Hout]; [by left|].
  assert (Py.truthy (Note.note_id note) = true) as ->
    by (by destruct (Note.note_id note)).
  rewrite bool_decide_eq_false_2 by done. simpl.
  rewrite dedup_loop_app. simpl. f_equal.
  unfold note_ids in Hnd. simpl in Hnd. apply NoDup_cons in Hnd as [Hfresh Hnd].
  apply IH; [done|]. intros n Hn. destruct (Hok n) as [H1 H2]; [by right|].
  split; [done|]. intros [E%elem_of_singleton | Hin]%elem_of_union; [|done].
  apply Hfresh. rewrite <- E. apply list_elem_of_fmap. by exists n.
Qed.

Lemma dedup_loop_keeps_first (all_notes : list Note.t) (seen : gset string)
    (pre post : list Note.t) (note : Note.t) :
  all_notes = pre ++ note :: post ->
  Note.note_id note <> EmptyString ->
  Note.note_id note ∉ seen ->
  Note.note_id note ∉ note_ids pre ->
  note ∈ dedup_loop all_notes seen [].
Proof.
  revert all_notes seen. induction pre as [|p pre IH];
    intros all_notes seen -> Hne Hseen Hpre; simpl.
  - assert (Py.truthy (Note.note_id note) = true) as ->
      by (by destruct (Note.note_id note)).
    rewrite bool_decide_eq_false_2 by done. simpl.
    rewrite dedup_loop_app. by left.
  - assert (Note.note_id note <> Note.note_id p) as Hp.
    { intros E. apply Hpre. unfold note_ids. simpl. rewrite E. by left. }
    assert (Note.note_id note ∉ note_ids pre) as Hpre'.
    { intros Hin. apply Hpre. unfold note_ids. simpl. by right. }
    destruct (Py.truthy _ && _).
    + rewrite dedup_loop_app. simpl. right.
      apply (IH _ _ eq_refl); [done | | done].
      by intros [?%elem_of_singleton | ?]%elem_of_union.
    + by apply (IH _ _ eq_refl).
Qed.

(** X7: the deduplication at the end of [_fetch_by_tab] returns a
    subsequence of the captured records; the first record of every
    non-empty id is kept; records whose ids are already non-empty and
    pairwise distinct come back unchanged, so deduplicating twice is
    deduplicating once. *)
Theorem deduplicate_keeps_first (all_notes : list Note.t) :
  deduplicate all_notes `sublist_of` all_notes
  /\ (forall pre note post,
        all_notes = pre ++ note :: post ->
        Note.note_id note <> EmptyString ->
        Note.note_id note ∉ note_ids pre ->
        note ∈ deduplicate all_notes)
  /\ (NoDup (note_ids all_notes) ->
      (forall note, note ∈ all_notes -> Note.note_id note <> EmptyString) ->
      deduplicate all_notes = all_notes)
  /\ deduplicate (deduplicate all_notes) = deduplicate all_notes.
Proof.
  split; [apply dedup_loop_sublist|]. split; [|split].
  - intros pre note post E Hne Hpre.
    apply (dedup_loop_keeps_first _ _ pre post); [done | done | set_solver | done].
  - intros Hnd Hne. apply dedup_loop_fixed; [done|].
    intros note Hin. split; [by apply Hne | set_solver].
  - destruct (dedup_loop_spec all_notes ∅ []) as (H1 & H2 & _).
    + intros nid. unfold note_ids. simpl. set_solver.
    + constructor.
    + intros note Hin. by apply elem_of_nil in Hin.
    + apply dedup_loop_fixed; [done|].
      intros note Hin. split; [by apply H2 | set_solver].
Qed.

Lemma deduplicate_keeps_first_witness :
  Sample.note "3" "first"
    ∈ deduplicate [Sample.note EmptyString "none"; Sample.note "3" "first";
                   Sample.note "3" "second"].
Proof.
  apply (proj1 (proj2 (deduplicate_keeps_first _))
           [Sample.note EmptyString "none"] (Sample.note "3" "first")
           [Sample.note "3" "second"]).
  - reflexivity.
  - discriminate.
  - by_evaluation.
Defined.

(** ** Scroll loop *)

Lemma scroll_loop_spec (remaining i : nat) (threshold : Z)
    (f : nat -> list Note.t) (all_notes : list Note.t) (c : nat) :
  let r := scroll_loop remaining i threshold f all_notes (length all_notes) c in
  (i <= r.2 <= i + remaining)%nat
  /\ r.1 = all_notes ++ concat (f <$> seq i (r.2 - i))
  /\ (r.2 < i + remaining ->
      exists m : nat, (1 <= m <= r.2 - i)%nat
        /\ (forall j : nat, (r.2 - m <= j < r.2)%nat -> f j = [])
        /\ (threshold <= Z.of_nat (m + (if decide (m = r.2 - i) then c else 0))%nat)%Z).
Proof.
  revert i all_notes c.
  induction remaining as [|remaining IH]; intros i all_notes c; cbv zeta.
  - simpl. replace (i - i) with 0 by lia. simpl. rewrite app_nil_r.
    split; [lia|]. split; [done|]. lia.
  - cbn [scroll_loop]. cbv zeta. rewrite length_app.
    destruct (f i) as [|n batch] eqn:Hbatch.
    + simpl length. rewrite Nat.add_0_r, Nat.eqb_refl, app_nil_r.
      destruct (threshold <=? Z.of_nat (S c))%Z eqn:Hth.
      * simpl. replace (S i - i) with 1 by lia. simpl.
        rewrite Hbatch. simpl. rewrite app_nil_r.
        split; [lia|]. split; [done|]. intros _. exists 1.
        split; [lia|]. split.
        -- intros j Hj. by replace j with i by lia.
        -- rewrite decide_True by lia. apply Z.leb_le in Hth. lia.
      * specialize (IH (S i) all_notes (S c)). cbv zeta in IH.
        destruct (scroll_loop remaining (S i) threshold f all_notes
                    (length all_notes) (S c)) as [all1 k].
        simpl in *. destruct IH as (Hk & Hall & Hstop).
        split; [lia|]. split.
        -- replace (k - i) with (S (k - S i)) by lia. simpl.
           by rewrite Hbatch.
        -- intros Hlt. destruct Hstop as (m & Hm & Hempty & Hthr); [lia|].
           destruct (decide (m = k - S i)) as [-> | Hne].
           ++ exists (S (k - S i)). split; [lia|]. split.
              ** intros j Hj. destruct (decide (j = i)) as [-> | Hji]; [done|].
                 apply Hempty. lia.
              ** rewrite decide_True by lia. lia.
           ++ exists m. split; [lia|]. split; [done|].
              rewrite decide_False by lia. lia.
    + assert ((length all_notes + length (n :: batch) =? length all_notes)%nat = false)
        as -> by (apply Nat.eqb_neq; simpl; lia).
      specialize (IH (S i) (all_notes ++ n :: batch) 0). cbv zeta in IH.
      rewrite length_app in IH.
      destruct (scroll_loop remaining (S i) threshold f (all_notes ++ n :: batch)
                  (length all_notes + length (n :: batch)) 0) as [all1 k].
      simpl in *. destruct IH as (Hk & Hall & Hstop).
      split; [lia|]. split.
      * replace (k - i) with (S (k - S i)) by lia. simpl.
        rewrite Hbatch, Hall. by rewrite <- app_assoc.
      * intros Hlt. destruct Hstop as (m & Hm & Hempty & Hthr); [lia|].
        assert (m <> k - i) as Hne.
        { intros ->. assert (f i = []) as Hi by (apply Hempty; lia).
          by rewrite Hbatch in Hi. }
        exists m. split; [lia|]. split; [done|].
        rewrite decide_False by done.
        destruct (decide (m = k - S i)); lia.
Qed.

(** A run of [t] scrolls that capture nothing, starting at the scroll [i],
    stops the loop when [t] and the count [c] so far reach the threshold. *)
Lemma scroll_loop_empty_run (remaining i : nat) (threshold : Z)
    (f : nat -> list Note.t) (all_notes : list Note.t) (c t : nat) :
  t <= remaining -> 1 <= t ->
  (threshold <= Z.of_nat (c + t))%Z ->
  (forall j : nat, (i <= j < i + t)%nat -> f j = []) ->
  (scroll_loop remaining i threshold f all_notes (length all_notes) c).2 <= i + t.
Proof.
  revert i c t.
  induction remaining as [|remaining IH]; intros i c t Hrem Ht Hthr Hempty; [lia|].
  cbn [scroll_loop]. cbv zeta. rewrite length_app.
  rewrite (Hempty i) by lia. simpl length.
  rewrite Nat.add_0_r, Nat.eqb_refl, app_nil_r.
  destruct (threshold <=? Z.of_nat (S c))%Z eqn:Hth; [simpl; lia|].
  apply Z.leb_gt in Hth.
  replace (i + t) with (S i + (t - 1)) by lia.
  apply IH; [lia | lia | lia |]. intros j Hj. apply Hempty. lia.
Qed.

(** Once [t] scrolls in a row capture nothing, with [t] at least the
    threshold, the loop has stopped. *)
Lemma scroll_loop_stops (remaining i : nat) (threshold : Z)
    (f : nat -> list Note.t) (all_notes : list Note.t) (c a t : nat) :
  i <= a -> a + t <= i + remaining -> 1 <= t ->
  (threshold <= Z.of_nat t)%Z ->
  (forall j : nat, (a <= j < a + t)%nat -> f j = []) ->
  (scroll_loop remaining i threshold f all_notes (length all_notes) c).2 <= a + t.
Proof.
  revert i all_notes c.
  induction remaining as [|remaining IH]; intros i all_notes c Hia Hat Ht Hthr Hempty.
  - simpl. lia.
  - destruct (decide (i = a)) as [-> | Hne].
    { apply scroll_loop_empty_run; [lia | done | lia | done]. }
    cbn [scroll_loop]. cbv zeta. rewrite length_app.
    destruct (f i) as [|n batch] eqn:Hbatch.
    + simpl length. rewrite Nat.add_0_r, Nat.eqb_refl, app_nil_r.
      destruct (threshold <=? Z.of_nat (S c))%Z eqn:Hth; [simpl; lia|].
      apply IH; [lia | lia | done | done | done].
    + assert ((length all_notes + length (n :: batch) =? length all_notes)%nat = false)
        as -> by (apply Nat.eqb_neq; simpl; lia).
      rewrite <- length_app. apply IH; [lia | lia | done | done | done].
Qed.

(** X8: the scroll loop of [_fetch_by_tab] makes at most [max_scrolls]
    scrolls and keeps, in order, every record captured before and during
    them.  When it stops before [max_scrolls], the last scrolls, at least
    one and at least [threshold] of them, captured nothing; and as soon as
    so many scrolls in a row capture nothing, it stops. *)
Theorem scroll_loop_bounds (max_scrolls : nat) (threshold : Z)
    (scrolled : nat -> list Note.t) (initial : list Note.t) :
  let r := scroll_loop max_scrolls 0 threshold scrolled initial (length initial) 0 in
  r.2 <= max_scrolls
  /\ r.1 = initial ++ concat (scrolled <$> seq 0 r.2)
  /\ (r.2 < max_scrolls ->
      exists m : nat, (1 <= m <= r.2)%nat /\ (threshold <= Z.of_nat m)%Z
        /\ forall j : nat, (r.2 - m <= j < r.2)%nat -> scrolled j = [])
  /\ (forall a t : nat,
        a + t <= max_scrolls -> 1 <= t -> (threshold <= Z.of_nat t)%Z ->
        (forall j : nat, (a <= j < a + t)%nat -> scrolled j = []) ->
        r.2 <= a + t).
Proof.
  intros r.
  destruct (scroll_loop_spec max_scrolls 0 threshold scrolled initial 0)
    as (Hk & Hall & Hstop). fold r in Hk, Hall, Hstop.
  rewrite Nat.sub_0_r in Hall, Hstop.
  split; [lia|]. split; [done|]. split.
  - intros Hlt. destruct Hstop as (m & Hm & Hempty & Hthr); [lia|].
    exists m. split; [lia|]. split; [|done].
    destruct (decide (m = r.2)); lia.
  - intros a t Hat Ht Hthr Hempty. unfold r.
    apply scroll_loop_stops; try done; lia.
Qed.

Lemma scroll_loop_bounds_witness :
  (scroll_loop 50 0 3 (fun i => if (i <? 2)%nat then [Sample.note "3" "x"] else [])
     [] 0 0).2 <= 2 + 3.
Proof.
  apply (proj2 (proj2 (proj2 (scroll_loop_bounds 50 3
           (fun i => if (i <? 2)%nat then [Sample.note "3" "x"] else []) []))) 2 3).
  - lia.
  - lia.
  - lia.
  - intros j Hj. destruct (Nat.ltb_spec j 2); [lia | done].
Defined.

(** ** Fetching *)

Lemma fetch_by_tab_ids (fetch : Fetch.t) (browser : Browser.t) (max_scrolls : Z)
    (notes : list Note.t) :
  _fetch_by_tab fetch browser max_scrolls = Some notes ->
  NoDup (note_ids notes)
  /\ forall note, note ∈ notes -> Note.note_id note <> EmptyString.
Proof.
  unfold _fetch_by_tab.
  destruct (negb (Py.truthy (Browser.user_id browser))); [done|].
  destruct (negb (Browser.tab_found browser)).
  - intros [= <-]. split; [constructor|]. by intros note ?%elem_of_nil.
  - destruct (scroll_loop _ _ _ _ _ _ _) as [all1 k]. intros [= <-].
    destruct (dedup_loop_spec all1 ∅ []) as (H1 & H2 & _); [| | |done].
    + intros nid. unfold note_ids. simpl. set_solver.
    + constructor.
    + by intros note ?%elem_of_nil.
Qed.

(** X9: a fetch keeps the ids of the collection pairwise distinct, whatever
    the browser captures: when the ids of the liked items are pairwise
    distinct before [fetch_likes], they are after it; the count returned is
    the number of items added, [last_fetch] is the clock reading, and the
    bookmarks and the session state are not touched.  The same holds for
    [fetch_bookmarks] and the bookmarks. *)
Theorem fetch_keeps_ids_unique (config : Config.t) (fetch : Fetch.t)
    (browser : Browser.t) (timestamp : string) (w w1 : World) (n : nat)
    (likes : bool) :
  let db_path :=
    if likes then Config.likes_file config else Config.bookmarks_file config in
  (if likes then fetch_likes config fetch browser timestamp w
   else fetch_bookmarks config fetch browser timestamp w) = Some (w1, n) ->
  NoDup (item_ids (load_db db_path w)) ->
  NoDup (item_ids (load_db db_path w1))
  /\ length (Db.items (load_db db_path w1))
     = length (Db.items (load_db db_path w)) + n
  /\ Db.last_fetch (load_db db_path w1) = Some timestamp
  /\ (forall other, other <> db_path -> load_db other w1 = load_db other w)
  /\ state_files w1 = state_files w.
Proof.
  intros db_path Hfetch Hnd.
  assert (exists notes max_scrolls,
            _fetch_by_tab fetch browser max_scrolls = Some notes
            /\ _process_notes notes config db_path timestamp w = (w1, n))
    as (notes & max_scrolls & Hnotes & Hmerge).
  { unfold db_path. destruct likes; unfold fetch_likes, fetch_bookmarks in Hfetch;
      destruct (_fetch_by_tab fetch browser _) as [notes|] eqn:E; try done;
      injection Hfetch as Hfetch; eauto. }
  apply fetch_by_tab_ids in Hnotes as [Hnotes _].
  pose proof (merged_ids_NoDup notes config db_path timestamp w Hnd Hnotes)
    as Hmerged.
  destruct (process_notes_frame notes config db_path timestamp w)
    as (Hlen & Hframe & Hstate).
  destruct (process_notes_spec config timestamp notes db_path w) as [Hdb _].
  rewrite Hmerge in *. simpl in *.
  split; [done|]. split; [done|]. split; [by rewrite Hdb|]. done.
Qed.

Lemma fetch_keeps_ids_unique_witness :
  match fetch_likes Sample.config (Fetch.mk None None None)
          (Browser.mk "5f3a" true
             [Sample.note "2" "two"; Sample.note "3" "three";
              Sample.note "3" "three"]
             (fun _ => []))
          "2024-05-02 10:00" Sample.world with
  | Some (w1, n) =>
      NoDup (item_ids (load_db "data/likes.json" w1))
      /\ length (Db.items (load_db "data/likes.json" w1)) = 2 + n
  | None => False
  end.
Proof.
  destruct (fetch_likes _ _ _ _ _) as [[w1 n]|] eqn:E.
  - assert (NoDup (item_ids (load_db (Config.likes_file Sample.config) Sample.world)))
      as Hnd by by_evaluation.
    destruct (fetch_keeps_ids_unique Sample.config _ _ _ _ w1 n true E Hnd)
      as (H1 & H2 & _).
    split; [exact H1 | exact H2].
  - vm_compute in E. discriminate E.
Defined.

(** X10: when the tab is not found, a fetch captures nothing, yet the merge
    still runs: the items are as before, 0 is returned, and [last_fetch] is
    set to the clock reading all the same.  Without a user id the fetch
    leaves the process and writes nothing. *)
Theorem fetch_likes_without_tab (config : Config.t) (fetch : Fetch.t)
    (browser : Browser.t) (timestamp : string) (w : World) :
  Browser.tab_found browser = false ->
  (Browser.user_id browser = EmptyString ->
   fetch_likes config fetch browser timestamp w = None)
  /\ (Browser.user_id browser <> EmptyString ->
      exists w1,
        fetch_likes config fetch browser timestamp w = Some (w1, 0)
        /\ Db.items (load_db (Config.likes_file config) w1)
           = Db.items (load_db (Config.likes_file config) w)
        /\ Db.last_fetch (load_db (Config.likes_file config) w1) = Some timestamp).
Proof.
  intros Htab. unfold fetch_likes, _fetch_by_tab. rewrite Htab. split.
  - by intros ->.
  - intros Hid. destruct (Browser.user_id browser); [done|]. simpl.
    eexists. split; [reflexivity|]. unfold _process_notes. simpl.
    by rewrite load_save_db.
Qed.

Lemma fetch_likes_without_tab_witness :
  exists w1,
    fetch_likes Sample.config (Fetch.mk None None None)
      (Browser.mk "5f3a" false [] (fun _ => [])) "2024-05-02 10:00" Sample.world
    = Some (w1, 0)
    /\ Db.items (load_db "data/likes.json" w1) = Db.items Sample.db
    /\ Db.last_fetch (load_db "data/likes.json" w1) = Some "2024-05-02 10:00".
Proof.
  refine (proj2 (fetch_likes_without_tab Sample.config (Fetch.mk None None None)
                   (Browser.mk "5f3a" false [] (fun _ => []))
                   "2024-05-02 10:00" Sample.world _) _).
  - reflexivity.
  - discriminate.
Defined.

(** ** Tagging pass and classifier, continued *)

Lemma auto_tag_nonempty (title text : string) (rules : list Rule.t) :
  auto_tag title text rules <> [].
Proof. unfold auto_tag. by destruct (auto_tag_loop _ _ _). Qed.

Lemma tag_all_loop_tagged (rules : list Rule.t) (items : list Item.t) :
  Forall (fun it => Item.tags it <> []) items ->
  tag_all_loop rules items = (items, 0).
Proof.
  induction 1 as [|it items Hit Hitems IH]; [done|]. simpl. rewrite IH.
  by destruct (Item.tags it).
Qed.

Lemma tag_all_loop_all_tagged (rules : list Rule.t) (items : list Item.t) :
  Forall (fun it => Item.tags it <> []) (tag_all_loop rules items).1.
Proof.
  induction items as [|it items IH]; [constructor|]. simpl.
  destruct (tag_all_loop rules items) as [rest1 n]. simpl in IH.
  destruct (Item.tags it) eqn:E; simpl; constructor; try done.
  - simpl. apply auto_tag_nonempty.
  - by rewrite E.
Qed.

(** X11: after [tag_all] no item of the collection is untagged.  The pass
    keeps the number and the order of the items and every field but the
    tags, keeps [last_fetch], touches no other collection and no session
    state, and a second pass leaves the world as the first one left it. *)
Theorem tag_all_tags_everything (config : Config.t) (collection : string)
    (w : World) :
  let db_path := collection_file config collection in
  let w1 := tag_all config collection w in
  let items := Db.items (load_db db_path w) in
  let items1 := Db.items (load_db db_path w1) in
  length items1 = length items
  /\ Forall (fun it => Item.tags it <> []) items1
  /\ (forall i item1, items1 !! i = Some item1 ->
        exists item, items !! i = Some item
          /\ item1 = Item.set_tags (Item.tags item1) item)
  /\ Db.last_fetch (load_db db_path w1) = Db.last_fetch (load_db db_path w)
  /\ (forall other, other <> db_path -> load_db other w1 = load_db other w)
  /\ state_files w1 = state_files w
  /\ tag_all config collection w1 = w1.
Proof.
  intros db_path w1 items items1.
  assert (items1 = (tag_all_loop (Config.tag_rules config) items).1) as Hitems1
    by apply tag_all_items.
  assert (w1 = save_db db_path
                 (Db.mk items1 (Db.last_fetch (load_db db_path w))) w) as Hw1.
  { rewrite Hitems1. unfold w1, tag_all. fold (collection_file config collection).
    fold db_path. fold items. by destruct (tag_all_loop _ items). }
  split; [rewrite Hitems1; apply tag_all_loop_length|].
  split; [rewrite Hitems1; apply tag_all_loop_all_tagged|].
  split.
  { intros i item1 Hi.
    assert (i < length items) as Hlt.
    { apply lookup_lt_Some in Hi. rewrite Hitems1, tag_all_loop_length in Hi. done. }
    destruct (lookup_lt_is_Some_2 _ _ Hlt) as [item Hitem].
    exists item. split; [done|].
    pose proof (tag_all_loop_lookup (Config.tag_rules config) _ _ _ Hitem) as H1.
    rewrite <- Hitems1, Hi in H1. injection H1 as ->.
    destruct item as [? ? ? ? ? ? ? tags ? ? ? ? ? ? ? ?]. simpl.
    by destruct tags. }
  split; [by rewrite Hw1, load_save_db|].
  split; [intros other Hne; rewrite Hw1; by apply load_save_db_ne|].
  split; [by rewrite Hw1|].
  unfold tag_all. fold (collection_file config collection). fold db_path.
  fold items1.
  rewrite tag_all_loop_tagged
    by (rewrite Hitems1; apply tag_all_loop_all_tagged).
  assert (Db.last_fetch (load_db db_path w1) = Db.last_fetch (load_db db_path w))
    as -> by (by rewrite Hw1, load_save_db).
  rewrite Hw1. unfold save_db. simpl. by rewrite insert_insert_eq.
Qed.




(** X13: the tags of [auto_tag] come in rule order, one per matching rule,
    however many keywords of the rule match: the result is the fallback tag
    alone or a subsequence of the rule names, and it is never empty. *)
Theorem auto_tag_in_rule_order (title text : string) (rules : list Rule.t) :
  auto_tag title text rules <> []
  /\ (auto_tag title text rules = [fallback_tag]
      \/ auto_tag title text rules `sublist_of` (Rule.name <$> rules))
  /\ length (auto_tag title text rules) <= Nat.max 1 (length rules).
Proof.
  split; [apply auto_tag_nonempty|].
  unfold auto_tag. rewrite auto_tag_loop_filter. simpl.
  set (matching := List.filter _ rules).
  assert (List.map Rule.name matching `sublist_of` (Rule.name <$> rules)) as Hsub.
  { unfold matching. clear matching. induction rules as [|r rules IH]; [done|].
    simpl. destruct (any_keyword_in _ _); simpl.
    - by apply sublist_skip.
    - by apply sublist_cons. }
  destruct (List.map Rule.name matching) as [|t tags] eqn:E.
  - split; [by left|]. simpl. lia.
  - split; [by right|]. apply sublist_length in Hsub.
    rewrite length_fmap in Hsub. lia.
Qed.

(** ** Review session, continued *)

Lemma item_evolves_refl (it : Item.t) : item_evolves it it.
Proof. unfold item_evolves. tauto. Qed.

Lemma item_evolves_trans (a b c : Item.t) :
  item_evolves a b -> item_evolves b c -> item_evolves a c.
Proof.
  unfold item_evolves. intros H1 H2.
  destruct H1 as (?&?&?&?&?&?&?&?&?&?&?&?&?&?).
  destruct H2 as (?&?&?&?&?&?&?&?&?&?&?&?&?&?).
  repeat split; try congruence; auto.
Qed.

Lemma items_evolve_refl (items : list Item.t) : Forall2 item_evolves items items.
Proof. apply Forall_Forall2_diag, Forall_forall. intros. apply item_evolves_refl. Qed.

Lemma items_evolve_trans (l1 l2 l3 : list Item.t) :
  Forall2 item_evolves l1 l2 -> Forall2 item_evolves l2 l3 ->
  Forall2 item_evolves l1 l3.
Proof.
  intros H. revert l3. induction H as [|a b l1 l2 Hab H IH]; intros l3 H3.
  - by inversion H3.
  - inversion H3 as [|? c ? l3' Hbc H3']; subst. constructor.
    + by apply (item_evolves_trans a b c).
    + by apply IH.
Qed.

Lemma items_evolve_put (idx : nat) (item item1 : Item.t) (d : Db.t) :
  Db.items d !! idx = Some item ->
  item_evolves item item1 ->
  Forall2 item_evolves (Db.items d) (Db.items (put_item idx item1 d)).
Proof.
  intros Hitem Hev. simpl.
  rewrite <- (list_insert_id (Db.items d) idx item Hitem) at 1.
  apply Forall2_insert; [apply items_evolve_refl | done].
Qed.

Lemma review_turn_evolves (idx : nat) (line now : string) (s s1 : Session) :
  review_turn idx line now s = Next s1 ->
  Forall2 item_evolves (Db.items (data s)) (Db.items (data s1))
  /\ Db.last_fetch (data s1) = Db.last_fetch (data s).
Proof.
  unfold review_turn. intros H.
  destruct (Db.items (data s) !! idx) as [item|] eqn:Hitem; [|done].
  repeat match type of H with
         | context [if ?b then _ else _] => destruct b
         | context [match ?o with Some _ => _ | None => _ end] => destruct o
         end;
    try discriminate; injection H as <-; simpl; (split; [|done]);
    try apply items_evolve_refl;
    apply (items_evolve_put idx item _ (data s) Hitem);
    unfold item_evolves; simpl; repeat split; auto.
  intros t Ht. apply elem_of_sorted_set, elem_of_app. by left.
Qed.

Lemma review_loop_evolves (items : list (nat * Item.t))
    (inputs : list (string * string)) (s s1 : Session) :
  review_loop items inputs s = Some s1 ->
  Forall2 item_evolves (Db.items (data s)) (Db.items (data s1))
  /\ Db.last_fetch (data s1) = Db.last_fetch (data s).
Proof.
  revert s. induction inputs as [|[line now] rest IH]; intros s; simpl.
  - destruct (items !! pos s) as [[idx it]|]; [done|]. intros [= ->].
    split; [apply items_evolve_refl | done].
  - destruct (items !! pos s) as [[idx it]|].
    2:{ intros [= ->]. split; [apply items_evolve_refl | done]. }
    destruct (review_turn idx line now s) as [s2| |] eqn:Hturn.
    + intros H. apply IH in H as [H1 H2].
      destruct (review_turn_evolves _ _ _ _ _ Hturn) as [H3 H4].
      split; [|congruence].
      by apply (items_evolve_trans _ _ _ H3 H1).
    + intros [= ->]. split; [apply items_evolve_refl | done].
    + done.
Qed.

(** X14: a review session never adds, drops or reorders items, and changes
    of an item only the tags (which can only grow), the note and the flags
    [reviewed] and [removed] (which are never reset): ids, titles, authors,
    urls, descs, tokens, [first_seen] and [saved_at] are as before, and so
    are [last_fetch], the other collections and their files. *)
Theorem review_changes_only_marks (config : Config.t) (mode start : string)
    (inputs : list (string * string)) (w w1 : World) :
  review config mode start inputs w = Some w1 ->
  Forall2 item_evolves
    (Db.items (load_db (Config.likes_file config) w))
    (Db.items (load_db (Config.likes_file config) w1))
  /\ Db.last_fetch (load_db (Config.likes_file config) w1)
     = Db.last_fetch (load_db (Config.likes_file config) w)
  /\ (forall other, other <> Config.likes_file config ->
        load_db other w1 = load_db other w).
Proof.
  unfold review. cbv zeta.
  destruct (_get_items _ _ _) as [|e es].
  { intros [= <-]. split; [apply items_evolve_refl | done]. }
  destruct (review_loop _ _ _) as [s|] eqn:Hloop; [|done].
  intros [= <-]. apply review_loop_evolves in Hloop as [H1 H2]. simpl in H1, H2.
  rewrite load_save_db. split; [done|]. split; [done|].
  intros other Hne. by rewrite load_save_db_ne.
Qed.

Lemma review_changes_only_marks_witness :
  match review Sample.config "all" "2024-05-02 10:00"
          [("r", "2024-05-02 10:01"); ("n later", "2024-05-02 10:02");
           ("t a,b", "2024-05-02 10:02"); ("k", "2024-05-02 10:03")]
          Sample.world with
  | Some w1 =>
      Forall2 item_evolves (Db.items Sample.db)
        (Db.items (load_db "data/likes.json" w1))
  | None => False
  end.
Proof.
  destruct (review _ _ _ _ _) as [w1|] eqn:E.
  - apply (review_changes_only_marks Sample.config _ _ _ Sample.world w1 E).
  - vm_compute in E. discriminate E.
Defined.

(** X15: when the input ends before the list is worked through and before
    a quit, [review] ends with the exception of [input()] and writes
    nothing: what the session has kept, removed, tagged and noted so far is
    not persisted. *)
Theorem review_eof_writes_nothing (ops : Str.ops) (config : Config.t)
    (mode start : string) (inputs : list (string * string)) (w : World)
    (s : Session) :
  Generic.runs ops (eligible config mode w) (start_session config w) inputs s ->
  pos s < length (eligible config mode w) ->
  Generic.review ops config mode start inputs w = None.
Proof.
  intros Hruns Hpos.
  pose proof (generic_loop_eof ops _ _ _ _ Hruns (lookup_lt_is_Some_2 _ _ Hpos))
    as Hloop.
  rewrite generic_review_unfold, Hloop; [done|].
  intros E. rewrite E in Hpos. simpl in Hpos. lia.
Qed.

Lemma review_eof_writes_nothing_witness :
  Generic.review Str.ascii Sample.config "all" "2024-05-02 10:00"
    [("k", "2024-05-02 10:01"); ("note read later", "2024-05-02 10:02")]
    Sample.world = None.
Proof.
  eapply review_eof_writes_nothing.
  - eapply Generic.runs_turn; [reflexivity | reflexivity |].
    eapply Generic.runs_turn; [reflexivity | reflexivity |].
    apply Generic.runs_done.
  - vm_compute. lia.
Defined.

(** X16: the ids a review session has reviewed are on the list of no later
    session, in any mode: when the loop ends (list worked through, or quit)
    with the reviewed set [reviewed s], [review] returns a world in which
    no eligible entry of any mode carries an id of that set, and in which
    the session state records the mode and the start of the session. *)
Theorem reviewed_ids_never_eligible_again (ops : Str.ops) (config : Config.t)
    (mode start : string) (inputs : list (string * string)) (w : World)
    (s : Session) :
  eligible config mode w <> [] ->
  Generic.review_loop ops (eligible config mode w) inputs (start_session config w)
  = Some s ->
  exists w1,
    Generic.review ops config mode start inputs w = Some w1
    /\ (forall mode1 i it,
          (i, it) ∈ eligible config mode1 w1 -> Item.id it ∉ reviewed s)
    /\ State.mode (_load_state config w1) = mode
    /\ State.session_start (_load_state config w1) = Some start.
Proof.
  intros Hne Hloop. rewrite generic_review_unfold, Hloop by done.
  eexists. split; [reflexivity|].
  assert (forall st w0, _load_state config (save_db (Config.likes_file config) (data s)
                                             (_save_state config st w0)) = st) as Hst.
  { intros st w0. unfold _load_state, save_db, _save_state. simpl.
    by rewrite lookup_insert_eq. }
  split; [|by rewrite !Hst].
  intros mode1 i it Hin. unfold eligible in Hin. rewrite Hst in Hin.
  apply elem_of_get_items in Hin as (_ & Hout & _). simpl in Hout.
  intros Hrev. apply Hout. apply elem_of_list_to_set. by apply elem_of_elements.
Qed.

Lemma reviewed_ids_never_eligible_again_witness :
  exists w1,
    Generic.review Str.ascii Sample.config "all" "2024-05-02 10:00"
      [("k", "2024-05-02 10:01"); ("q", "2024-05-02 10:02")] Sample.world
    = Some w1
    /\ forall i it, (i, it) ∈ eligible Sample.config "other" w1 -> Item.id it <> "1".
Proof.
  destruct (reviewed_ids_never_eligible_again Str.ascii Sample.config "all"
              "2024-05-02 10:00"
              [("k", "2024-05-02 10:01"); ("q", "2024-05-02 10:02")]
              Sample.world
              (mkSession 1 {[ "1" ]}
                 (put_item 0 (Item.set_reviewed true (Sample.item "1" "foo one" []))
                    Sample.db)))
    as (w1 & Hreview & Hnever & _).
  - discriminate.
  - vm_compute. reflexivity.
  - exists w1. split; [exact Hreview|]. intros i it Hin Hid.
    apply (Hnever "other" i it Hin). simpl. rewrite Hid.
    by apply elem_of_singleton.
Defined.

Lemma get_items_from_sorted (i0 : nat) (items : list Item.t) (mode : string)
    (reviewed_ids : gset string) :
  StronglySorted lt (fst <$> get_items_from i0 items mode reviewed_ids)
  /\ Forall (fun i => i0 <= i) (fst <$> get_items_from i0 items mode reviewed_ids)
  /\ length (get_items_from i0 items mode reviewed_ids) <= length items.
Proof.
  revert i0. induction items as [|it rest IH]; intros i0; simpl.
  - split; [constructor|]. split; [constructor | done].
  - destruct (IH (S i0)) as (Hs & Hge & Hlen).
    assert (Forall (fun i => i0 <= i)
              (fst <$> get_items_from (S i0) rest mode reviewed_ids)) as Hge'.
    { eapply Forall_impl; [exact Hge|]. simpl. lia. }
    repeat match goal with
           | |- context [if ?b then _ else _] => destruct b
           end; simpl;
      try (split; [done|]; split; [done | lia]).
    all: split; [constructor; [done|]; eapply Forall_impl; [exact Hge|]; simpl; lia|].
    all: split; [by constructor | lia].
Qed.

(** X17: the list of [_get_items] follows the order of the collection: the
    indices of its entries are strictly ascending, so no item is listed
    twice, and it is no longer than the collection. *)
Theorem get_items_in_collection_order (data : Db.t) (mode : string)
    (reviewed_ids : gset string) :
  StronglySorted lt (fst <$> _get_items data mode reviewed_ids)
  /\ NoDup (fst <$> _get_items data mode reviewed_ids)
  /\ length (_get_items data mode reviewed_ids) <= length (Db.items data).
Proof.
  destruct (get_items_from_sorted 0 (Db.items data) mode reviewed_ids)
    as (Hs & _ & Hlen).
  split; [done|]. split; [|done].
  unfold _get_items. revert Hs.
  generalize (fst <$> get_items_from 0 (Db.items data) mode reviewed_ids).
  induction 1 as [|x l Hs IH Hx]; constructor; [|done].
  intros Hin. apply (proj1 (Forall_forall _ _) Hx) in Hin. lia.
Qed.

(** ** Commands *)



Lemma app_empty (b : string) : EmptyString +:+ b = b.
Proof. reflexivity. Qed.

Lemma app_String (c : ascii) (a b : string) :
  String c a +:+ b = String c (a +:+ b).
Proof. reflexivity. Qed.







(** ** The text of a document reads back as the document (utils.py) *)

Lemma app_assoc_str (a b c : string) : (a +:+ b) +:+ c = a +:+ (b +:+ c).
Proof. induction a as [|x a IH]; [done|]. rewrite !app_String. by rewrite IH. Qed.

Lemma app_empty_r (a : string) : a +:+ EmptyString = a.
Proof. induction a as [|x a IH]; [done|]. rewrite app_String. by rewrite IH. Qed.

Lemma length_app_str (a b : string) :
  String.length (a +:+ b) = String.length a + String.length b.
Proof. induction a as [|x a IH]; [done|]. rewrite app_String. simpl. by rewrite IH. Qed.

(** Reading back one escaped byte. *)
Lemma parse_escape_char (c : ascii) (tail : string) :
  Json.parse_chars (Json.escape_char c +:+ tail)
  = Json.prepend (String c EmptyString) (Json.parse_chars tail).
Proof.
  destruct c as [[] [] [] [] [] [] [] []]; reflexivity.
Qed.

Lemma parse_escape (s rest : string) :
  Json.parse_chars (Json.escape s +:+ String Json.dquote rest) = Some (s, rest).
Proof.
  induction s as [|c s IH].
  - reflexivity.
  - simpl Json.escape. rewrite app_assoc_str, parse_escape_char, IH. reflexivity.
Qed.

Lemma parse_quote (s rest : string) :
  exists tail, Json.quote s +:+ rest = String Json.dquote tail
               /\ Json.parse_chars tail = Some (s, rest).
Proof.
  exists (Json.escape s +:+ String Json.dquote rest). split.
  - unfold Json.quote. rewrite app_String, app_assoc_str. reflexivity.
  - apply parse_escape.
Qed.

(** *** Numbers *)

Lemma parse_digits_uint (d : Decimal.uint) (acc : Z) (rest : string) :
  no_digit_ahead rest ->
  Json.parse_digits acc (NilEmpty.string_of_uint d +:+ rest) = (uint_value acc d, rest).
Proof.
  intros Hrest. revert acc.
  induction d as [|d IH|d IH|d IH|d IH|d IH|d IH|d IH|d IH|d IH|d IH]; intros acc;
    try (simpl NilEmpty.string_of_uint; rewrite app_String;
         simpl Json.parse_digits; exact (IH _)).
  simpl. rewrite app_empty. destruct rest as [|c rest]; [done|].
  simpl in Hrest. simpl. by rewrite Hrest.
Qed.

Lemma uint_value_acc (d : Decimal.uint) (acc : positive) :
  uint_value (Z.pos acc) d = Z.pos (Pos.of_uint_acc d acc).
Proof.
  revert acc.
  induction d as [|d IH|d IH|d IH|d IH|d IH|d IH|d IH|d IH|d IH|d IH]; intros acc;
    [done|..]; simpl uint_value; simpl Pos.of_uint_acc; rewrite <- IH; f_equal; lia.
Qed.

Lemma uint_value_of_uint (d : Decimal.uint) :
  uint_value 0 d = Z.of_N (Pos.of_uint d).
Proof.
  induction d as [|d IH|d IH|d IH|d IH|d IH|d IH|d IH|d IH|d IH|d IH];
    [done| exact IH |..]; simpl uint_value; simpl Pos.of_uint;
    exact (uint_value_acc d _).
Qed.

Lemma uint_value_to_uint (p : positive) : uint_value 0 (Pos.to_uint p) = Z.pos p.
Proof. by rewrite uint_value_of_uint, DecimalPos.Unsigned.of_to. Qed.

(** The decimal digits of a positive number do not start with [0]. *)
Lemma to_uint_head (p : positive) (d : Decimal.uint) : Pos.to_uint p <> Decimal.D0 d.
Proof.
  intros E.
  pose proof (DecimalPos.Unsigned.to_of (Pos.to_uint p)) as H.
  rewrite DecimalPos.Unsigned.of_to in H. simpl N.to_uint in H.
  pose proof (DecimalFacts.nzhead_nonzero (Pos.to_uint p)) as Hnz.
  unfold Decimal.unorm in H.
  destruct (Decimal.nzhead (Pos.to_uint p)) eqn:Eh.
  - exact (DecimalPos.Unsigned.to_uint_nonzero p H).
  - by destruct (Hnz u).
  - rewrite E in H; discriminate.
  - rewrite E in H; discriminate.
  - rewrite E in H; discriminate.
  - rewrite E in H; discriminate.
  - rewrite E in H; discriminate.
  - rewrite E in H; discriminate.
  - rewrite E in H; discriminate.
  - rewrite E in H; discriminate.
  - rewrite E in H; discriminate.
Qed.

Lemma parse_nat_pos (p : positive) (rest : string) :
  no_digit_ahead rest ->
  Json.parse_nat (NilZero.string_of_uint (Pos.to_uint p) +:+ rest) = Some (Z.pos p, rest).
Proof.
  intros Hrest.
  pose proof (parse_digits_uint (Pos.to_uint p) 0 rest Hrest) as Hd.
  rewrite uint_value_to_uint in Hd.
  pose proof (DecimalPos.Unsigned.to_uint_nonnil p) as Hnil.
  pose proof (to_uint_head p) as Hhead.
  destruct (Pos.to_uint p) as [|d|d|d|d|d|d|d|d|d|d]; [done| by destruct (Hhead d) |..];
    cbn [NilZero.string_of_uint NilEmpty.string_of_uint] in *;
    rewrite app_String in *;
    unfold Json.parse_nat; simpl Ascii.eqb; simpl Json.is_digit; cbv iota;
    by rewrite Hd.
Qed.

Lemma parse_number (fuel : nat) (n : Z) (rest : string) :
  no_digit_ahead rest ->
  Json.parse_value (S fuel) (NilZero.string_of_int (Z.to_int n) +:+ rest)
  = Some (Json.Num n, rest).
Proof.
  intros Hrest. destruct n as [|p|p].
  - reflexivity.
  - pose proof (parse_nat_pos p rest Hrest) as Hp.
    pose proof (DecimalPos.Unsigned.to_uint_nonnil p) as Hnil.
    pose proof (to_uint_head p) as Hhead.
    simpl Z.to_int. simpl NilZero.string_of_int.
    destruct (Pos.to_uint p) as [|d|d|d|d|d|d|d|d|d|d]; [done| by destruct (Hhead d) |..];
      cbn [NilZero.string_of_uint NilEmpty.string_of_uint] in *;
      rewrite app_String in *;
      match goal with
      | |- Json.parse_value _ ?text = _ =>
          transitivity (match Json.parse_nat text with
                        | Some (k, r) => Some (Json.Num k, r)
                        | None => None
                        end); [reflexivity | by rewrite Hp]
      end.
  - pose proof (parse_nat_pos p rest Hrest) as Hp.
    simpl Z.to_int. simpl NilZero.string_of_int. rewrite app_String.
    transitivity (match Json.parse_nat (NilZero.string_of_uint (Pos.to_uint p) +:+ rest) with
                  | Some (k, r) => Some (Json.Num (- k), r)
                  | None => None
                  end); [reflexivity | by rewrite Hp].
Qed.

(** *** Layout and unfolding *)

Lemma skip_ws_spaces (n : nat) (s : string) :
  Json.skip_ws (Json.spaces n +:+ s) = Json.skip_ws s.
Proof. induction n as [|n IH]; [done|]. simpl Json.spaces. by rewrite app_String. Qed.

Lemma skip_ws_newline_indent (level : nat) (s : string) :
  Json.skip_ws (Json.newline_indent level +:+ s) = Json.skip_ws s.
Proof.
  unfold Json.newline_indent. rewrite app_String. simpl. apply skip_ws_spaces.
Qed.

Lemma parse_value_S (fuel : nat) (s : string) :
  Json.parse_value (S fuel) s
  = match Json.skip_ws s with
    | EmptyString => None
    | String c rest =>
        if Ascii.eqb c "n" then Json.literal "ull" Json.Null rest
        else if Ascii.eqb c "t" then Json.literal "rue" (Json.Bool true) rest
        else if Ascii.eqb c "f" then Json.literal "alse" (Json.Bool false) rest
        else if Ascii.eqb c Json.dquote then
          match Json.parse_chars rest with
          | Some (str, r) => Some (Json.Str str, r)
          | None => None
          end
        else if Ascii.eqb c "[" then
          match Json.skip_ws rest with
          | String c' r =>
              if Ascii.eqb c' "]" then Some (Json.Arr [], r)
              else match Json.parse_elements fuel rest with
                   | Some (l, r') => Some (Json.Arr l, r')
                   | None => None
                   end
          | EmptyString => None
          end
        else if Ascii.eqb c "{" then
          match Json.skip_ws rest with
          | String c' r =>
              if Ascii.eqb c' "}" then Some (Json.Obj [], r)
              else match Json.parse_members fuel rest with
                   | Some (l, r') => Some (Json.Obj l, r')
                   | None => None
                   end
          | EmptyString => None
          end
        else if Ascii.eqb c "-" then
          match Json.parse_nat rest with
          | Some (n, r) => Some (Json.Num (- n), r)
          | None => None
          end
        else
          match Json.parse_nat (String c rest) with
          | Some (n, r) => Some (Json.Num n, r)
          | None => None
          end
    end.
Proof. reflexivity. Qed.

Lemma parse_elements_S (fuel : nat) (s : string) :
  Json.parse_elements (S fuel) s
  = match Json.parse_value fuel s with
    | None => None
    | Some (v, r) =>
        match Json.skip_ws r with
        | EmptyString => None
        | String c r' =>
            if Ascii.eqb c "," then
              match Json.parse_elements fuel r' with
              | Some (l, r'') => Some (v :: l, r'')
              | None => None
              end
            else if Ascii.eqb c "]" then Some ([v], r')
            else None
        end
    end.
Proof. reflexivity. Qed.

Lemma parse_members_S (fuel : nat) (s : string) :
  Json.parse_members (S fuel) s
  = match Json.skip_ws s with
    | EmptyString => None
    | String q r0 =>
        if Ascii.eqb q Json.dquote then
          match Json.parse_chars r0 with
          | None => None
          | Some (k, r1) =>
              match Json.skip_ws r1 with
              | EmptyString => None
              | String colon r2 =>
                  if Ascii.eqb colon ":" then
                    match Json.parse_value fuel r2 with
                    | None => None
                    | Some (v, r3) =>
                        match Json.skip_ws r3 with
                        | EmptyString => None
                        | String c r4 =>
                            if Ascii.eqb c "," then
                              match Json.parse_members fuel r4 with
                              | Some (l, r5) => Some ((k, v) :: l, r5)
                              | None => None
                              end
                            else if Ascii.eqb c "}" then Some ([(k, v)], r4)
                            else None
                        end
                    end
                  else None
              end
          end
        else None
    end.
Proof. reflexivity. Qed.

Lemma parse_value_skip (fuel : nat) (s s' : string) :
  Json.skip_ws s = Json.skip_ws s' ->
  Json.parse_value fuel s = Json.parse_value fuel s'.
Proof. intros E. destruct fuel as [|fuel]; [done|]. by rewrite !parse_value_S, E. Qed.

Lemma parse_members_skip (fuel : nat) (s s' : string) :
  Json.skip_ws s = Json.skip_ws s' ->
  Json.parse_members fuel s = Json.parse_members fuel s'.
Proof. intros E. destruct fuel as [|fuel]; [done|]. by rewrite !parse_members_S, E. Qed.

(** The separator between the elements of a list and the members of a
    dict at nesting depth [level]. *)
Lemma join_cons {A : Type} (sep : string) (f : A -> string) (x y : A) (l : list A) :
  Json.join sep (List.map f (x :: y :: l))
  = f x +:+ sep +:+ Json.join sep (List.map f (y :: l)).
Proof. reflexivity. Qed.

Lemma dumps_at_arr (level : nat) (e : Json.t) (es : list Json.t) :
  Json.dumps_at level (Json.Arr (e :: es))
  = String "[" (Json.newline_indent (S level)
      +:+ Json.join (String "," (Json.newline_indent (S level)))
            (List.map (Json.dumps_at (S level)) (e :: es))
      +:+ Json.newline_indent level +:+ String "]" EmptyString).
Proof. reflexivity. Qed.

Lemma dumps_at_obj (level : nat) (m : string * Json.t) (ms : list (string * Json.t)) :
  Json.dumps_at level (Json.Obj (m :: ms))
  = String "{" (Json.newline_indent (S level)
      +:+ Json.join (String "," (Json.newline_indent (S level)))
            (List.map (fun kv => Json.quote (fst kv) +:+ String ":" (String " "
                                   (Json.dumps_at (S level) (snd kv))))
               (m :: ms))
      +:+ Json.newline_indent level +:+ String "}" EmptyString).
Proof. reflexivity. Qed.

Lemma dumps_starts (level : nat) (v : Json.t) (rest : string) :
  starts_value (Json.dumps_at level v +:+ rest).
Proof.
  destruct v as [|[]|n|s|[|e es]|[|m ms]]; try done.
  simpl Json.dumps_at. destruct n as [|p|p]; [done| |done].
  simpl. pose proof (DecimalPos.Unsigned.to_uint_nonnil p) as Hnil.
  by destruct (Pos.to_uint p).
Qed.

(** *** Reading back *)

Lemma skip_ws_starts (s : string) :
  starts_value s ->
  exists c tail, Json.skip_ws s = String c tail /\ Ascii.eqb c "]" = false.
Proof.
  destruct s as [|c tail]; [done|]. intros [Hws Hc]. exists c, tail.
  simpl. by rewrite Hws.
Qed.

Lemma parse_value_list (fuel : nat) (s : string) :
  Json.parse_value (S fuel) (String "[" s)
  = match Json.skip_ws s with
    | String c r =>
        if Ascii.eqb c "]" then Some (Json.Arr [], r)
        else match Json.parse_elements fuel s with
             | Some (l, r') => Some (Json.Arr l, r')
             | None => None
             end
    | EmptyString => None
    end.
Proof. reflexivity. Qed.

Lemma parse_value_dict (fuel : nat) (s : string) :
  Json.parse_value (S fuel) (String "{" s)
  = match Json.skip_ws s with
    | String c r =>
        if Ascii.eqb c "}" then Some (Json.Obj [], r)
        else match Json.parse_members fuel s with
             | Some (l, r') => Some (Json.Obj l, r')
             | None => None
             end
    | EmptyString => None
    end.
Proof. reflexivity. Qed.

Lemma reads_value_step (fuel : nat) :
  reads_value fuel -> reads_elements fuel -> reads_members fuel ->
  reads_value (S fuel).
Proof.
  intros _ He Hm v level rest Hfuel Hrest.
  destruct v as [|[]|n|s|[|e es]|[|m ms]];
    try (by rewrite parse_value_S; simpl; destruct rest).
  - by apply parse_number.
  - destruct (parse_quote s rest) as (tail & E & Htail).
    change (Json.dumps_at level (Json.Str s)) with (Json.quote s).
    rewrite E, parse_value_S. simpl. by rewrite Htail.
  - rewrite dumps_at_arr, app_String, !app_assoc_str, app_String, app_empty.
    rewrite parse_value_list, skip_ws_newline_indent.
    assert (exists c tail,
      Json.skip_ws
        (Json.join (String "," (Json.newline_indent (S level)))
           (List.map (Json.dumps_at (S level)) (e :: es))
         +:+ Json.newline_indent level +:+ String "]" rest) = String c tail
      /\ Ascii.eqb c "]" = false) as (c & tail & -> & ->).
    { apply skip_ws_starts. destruct es as [|e' es].
      - apply dumps_starts.
      - rewrite join_cons, !app_assoc_str. apply dumps_starts. }
    rewrite He; [done|]. simpl in Hfuel. simpl. lia.
  - rewrite dumps_at_obj, app_String, !app_assoc_str, app_String, app_empty.
    rewrite parse_value_dict, skip_ws_newline_indent.
    assert (exists tail,
      Json.skip_ws
        (Json.join (String "," (Json.newline_indent (S level)))
           (List.map (fun kv => Json.quote (fst kv) +:+ String ":" (String " "
                                  (Json.dumps_at (S level) (snd kv))))
              (m :: ms))
         +:+ Json.newline_indent level +:+ String "}" rest)
      = String Json.dquote tail) as (tail & ->).
    { destruct ms as [|m' ms].
      - simpl. by eexists.
      - rewrite join_cons, !app_assoc_str. simpl. by eexists. }
    simpl Ascii.eqb. cbv iota.
    rewrite Hm; [done|]. simpl in Hfuel. simpl. lia.
Qed.

Lemma reads_elements_step (fuel : nat) :
  reads_value fuel -> reads_elements fuel -> reads_elements (S fuel).
Proof.
  intros Hv He es e level rest Hfuel.
  simpl in Hfuel.
  rewrite parse_elements_S.
  rewrite (parse_value_skip fuel _ _ (skip_ws_newline_indent (S level) _)).
  destruct es as [|e' es].
  - cbn [List.map Json.join].
    rewrite Hv; [|simpl in Hfuel; lia|done].
    rewrite skip_ws_newline_indent. reflexivity.
  - rewrite join_cons, !app_assoc_str, app_String.
    rewrite Hv; [|lia|done].
    cbn [Json.skip_ws]. change (Json.is_ws ",") with false. cbv iota.
    change (Ascii.eqb "," ",") with true. cbv iota.
    rewrite (He es e' level rest); [done|]. lia.
Qed.

Lemma reads_members_step (fuel : nat) :
  reads_value fuel -> reads_members fuel -> reads_members (S fuel).
Proof.
  intros Hv Hm ms [k v] level rest Hfuel.
  simpl in Hfuel.
  rewrite parse_members_S, skip_ws_newline_indent.
  destruct ms as [|m' ms].
  - cbn [List.map Json.join fst snd].
    destruct (parse_quote k (String ":" (String " " (Json.dumps_at (S level) v))
                             +:+ Json.newline_indent level +:+ String "}" rest))
      as (tail & E & Htail).
    rewrite !app_assoc_str, E.
    cbn [Json.skip_ws]. change (Json.is_ws Json.dquote) with false. cbv iota.
    change (Ascii.eqb Json.dquote Json.dquote) with true. cbv iota.
    rewrite Htail, !app_String.
    cbn [Json.skip_ws]. change (Json.is_ws ":") with false. cbv iota.
    change (Ascii.eqb ":" ":") with true. cbv iota.
    rewrite (parse_value_skip fuel _
               (Json.dumps_at (S level) v +:+ Json.newline_indent level +:+ String "}" rest));
      [|reflexivity].
    rewrite Hv; [|simpl in Hfuel; lia|done].
    rewrite skip_ws_newline_indent. reflexivity.
  - rewrite join_cons. cbn [fst snd].
    destruct (parse_quote k (String ":" (String " " (Json.dumps_at (S level) v))
                +:+ String "," (Json.newline_indent (S level))
                +:+ Json.join (String "," (Json.newline_indent (S level)))
                      (List.map (fun kv => Json.quote (fst kv) +:+ String ":" (String " "
                                             (Json.dumps_at (S level) (snd kv))))
                         (m' :: ms))
                +:+ Json.newline_indent level +:+ String "}" rest))
      as (tail & E & Htail).
    rewrite !app_assoc_str, E.
    cbn [Json.skip_ws]. change (Json.is_ws Json.dquote) with false. cbv iota.
    change (Ascii.eqb Json.dquote Json.dquote) with true. cbv iota.
    rewrite Htail, !app_String.
    cbn [Json.skip_ws]. change (Json.is_ws ":") with false. cbv iota.
    change (Ascii.eqb ":" ":") with true. cbv iota.
    match goal with
    | |- context [Json.parse_value fuel (String " " ?text)] =>
        rewrite (parse_value_skip fuel (String " " text) text); [|reflexivity]
    end.
    rewrite Hv; [|lia|done].
    cbn [Json.skip_ws]. change (Json.is_ws ",") with false. cbv iota.
    change (Ascii.eqb "," ",") with true. cbv iota.
    rewrite (Hm ms m' level rest); [done|]. lia.
Qed.

Lemma reads_all (fuel : nat) :
  reads_value fuel /\ reads_elements fuel /\ reads_members fuel.
Proof.
  induction fuel as [|fuel (Hv & He & Hm)].
  - repeat split.
    + intros v level rest Hfuel. destruct v; simpl in Hfuel; lia.
    + intros es e level rest Hfuel. simpl in Hfuel. lia.
    + intros ms m level rest Hfuel. simpl in Hfuel. lia.
  - repeat split.
    + by apply reads_value_step.
    + by apply reads_elements_step.
    + by apply reads_members_step.
Qed.

(** *** The fuel of [loads] suffices *)

Lemma json_ind (P : Json.t -> Prop) :
  P Json.Null -> (forall b, P (Json.Bool b)) -> (forall n, P (Json.Num n)) ->
  (forall s, P (Json.Str s)) ->
  (forall l, Forall P l -> P (Json.Arr l)) ->
  (forall l, Forall (fun kv => P (snd kv)) l -> P (Json.Obj l)) ->
  forall v, P v.
Proof.
  intros Hnull Hbool Hnum Hstr Harr Hobj. fix IH 1. intros [|b|n|s|l|l].
  - exact Hnull.
  - apply Hbool.
  - apply Hnum.
  - apply Hstr.
  - apply Harr. induction l as [|e l IHl]; constructor; [apply IH | exact IHl].
  - apply Hobj. induction l as [|[k e] l IHl]; constructor; [apply IH | exact IHl].
Qed.

Lemma length_join {A : Type} (sep : string) (f : A -> string) (g : A -> nat)
    (x : A) (l : list A) :
  Forall (fun y => g y <= S (String.length (f y))) (x :: l) ->
  2 <= String.length sep ->
  list_sum (List.map (fun y => S (g y)) (x :: l))
  <= 2 + String.length (Json.join sep (List.map f (x :: l))).
Proof.
  intros Hall Hsep. revert x Hall. induction l as [|y l IH]; intros x Hall.
  - apply Forall_cons in Hall as [Hx _]. simpl. lia.
  - apply Forall_cons in Hall as [Hx Hall]. specialize (IH y Hall).
    rewrite join_cons, !length_app_str.
    change (list_sum (List.map (fun y => S (g y)) (x :: y :: l)))
      with (S (g x) + list_sum (List.map (fun y => S (g y)) (y :: l))).
    lia.
Qed.

Lemma length_newline_indent (level : nat) :
  1 <= String.length (Json.newline_indent level).
Proof. unfold Json.newline_indent. simpl. lia. Qed.

Lemma fuel_need_length (v : Json.t) :
  forall level, fuel_need v <= S (String.length (Json.dumps_at level v)).
Proof.
  induction v as [|b|n|s|l IH|l IH] using json_ind; intros level;
    try (simpl fuel_need; lia).
  - destruct l as [|e es]; [simpl; lia|].
    rewrite dumps_at_arr.
    change (fuel_need (Json.Arr (e :: es)))
      with (S (list_sum (List.map (fun e => S (fuel_need e)) (e :: es)))).
    pose proof (length_join (String "," (Json.newline_indent (S level)))
                  (Json.dumps_at (S level)) fuel_need e es) as Hjoin.
    pose proof (length_newline_indent (S level)) as Hnl.
    cbn [String.length]. rewrite !length_app_str.
    cbn [String.length] in Hjoin.
    assert (Forall (fun y => fuel_need y <= S (String.length (Json.dumps_at (S level) y)))
              (e :: es)) as Hall.
    { eapply Forall_impl; [exact IH|]. intros y Hy. apply Hy. }
    specialize (Hjoin Hall). lia.
  - destruct l as [|m ms]; [simpl; lia|].
    rewrite dumps_at_obj.
    change (fuel_need (Json.Obj (m :: ms)))
      with (S (list_sum (List.map (fun kv => S (fuel_need (snd kv))) (m :: ms)))).
    pose proof (length_join (String "," (Json.newline_indent (S level)))
                  (fun kv => Json.quote (fst kv) +:+ String ":" (String " "
                               (Json.dumps_at (S level) (snd kv))))
                  (fun kv => fuel_need (snd kv)) m ms) as Hjoin.
    pose proof (length_newline_indent (S level)) as Hnl.
    cbn [String.length]. rewrite !length_app_str.
    cbn [String.length] in Hjoin.
    assert (Forall (fun y => fuel_need (snd y)
                             <= S (String.length
                                     (Json.quote (fst y) +:+ String ":" (String " "
                                        (Json.dumps_at (S level) (snd y))))))
              (m :: ms)) as Hall.
    { eapply Forall_impl; [exact IH|]. intros y Hy. cbn beta in Hy.
      rewrite length_app_str. cbn [String.length]. specialize (Hy (S level)). lia. }
    specialize (Hjoin Hall). lia.
Qed.

(** [json.loads] reads the text of [json.dumps] back as the document. *)
Lemma loads_dumps (v : Json.t) : Json.loads (Json.dumps v) = Some v.
Proof.
  unfold Json.loads, Json.dumps.
  pose proof (fuel_need_length v 0) as Hfuel.
  pose proof (proj1 (reads_all (2 * String.length (Json.dumps_at 0 v) + 2)) v 0 EmptyString)
    as Hread.
  rewrite app_empty_r in Hread. rewrite Hread; [done|lia|done].
Qed.

(** X19: a collection file that [save_db] has written loads back as the
    document that was saved: [load_db(path)] after [save_db(path, data)]
    returns [data], whatever the strings of the document hold (quotes,
    backslashes, line breaks, control characters, non-ASCII text), and
    whatever the file held before. *)
Theorem saved_db_loads_back (path : string) (data : Json.t) (fs : gmap string string) :
  Disk.load_db path (Disk.save_db path data fs) = Disk.Loaded data.
Proof.
  unfold Disk.load_db, Disk.save_db, Disk.write_text.
  by rewrite lookup_insert_eq, loads_dumps.
Qed.

(** ** Merging a user configuration into the defaults (config.py) *)

Lemma dict_get_set_eq (k : string) (v : Json.t) (d : list (string * Json.t)) :
  Dict.get k (Dict.set k v d) = Some v.
Proof.
  induction d as [|[k' v'] d IH]; simpl.
  - by rewrite String.eqb_refl.
  - destruct (String.eqb k' k) eqn:E; simpl; by rewrite E.
Qed.

Lemma dict_get_set_ne (k k' : string) (v : Json.t) (d : list (string * Json.t)) :
  k <> k' -> Dict.get k (Dict.set k' v d) = Dict.get k d.
Proof.
  intros Hne. induction d as [|[k0 v0] d IH]; simpl.
  - destruct (String.eqb k' k) eqn:E; [|done].
    apply String.eqb_eq in E. by subst.
  - destruct (String.eqb k0 k') eqn:E; simpl.
    + apply String.eqb_eq in E as ->.
      destruct (String.eqb k' k) eqn:E'; [|done].
      apply String.eqb_eq in E'. by subst.
    + by rewrite IH.
Qed.

Lemma dict_get_none (k : string) (d : list (string * Json.t)) :
  k ∉ d.*1 -> Dict.get k d = None.
Proof.
  induction d as [|[k' v'] d IH]; [done|]. simpl. intros Hk.
  apply not_elem_of_cons in Hk as [Hne Hk].
  destruct (String.eqb k' k) eqn:E; [|by apply IH].
  apply String.eqb_eq in E. by subst.
Qed.

Lemma dict_get_some (k : string) (d : list (string * Json.t)) :
  k ∈ d.*1 <-> is_Some (Dict.get k d).
Proof.
  induction d as [|[k' v'] d IH]; simpl.
  - split; [by intros ?%elem_of_nil | by intros [? ?]].
  - destruct (String.eqb k' k) eqn:E.
    + apply String.eqb_eq in E as ->. split; [by eexists | intros _; by left].
    + apply String.eqb_neq in E. rewrite elem_of_cons, IH. split; [|by right].
      by intros [-> | ?].
Qed.

(** The keys after [d[key] = value]. *)
Lemma dict_set_keys (k : string) (v : Json.t) (d : list (string * Json.t)) :
  (Dict.set k v d).*1 = if bool_decide (k ∈ d.*1) then d.*1 else d.*1 ++ [k].
Proof.
  induction d as [|[k' v'] d IH]; [done|].
  cbn [Dict.set]. destruct (String.eqb k' k) eqn:E; rewrite !fmap_cons; cbn [fst].
  - apply String.eqb_eq in E as ->. rewrite bool_decide_eq_true_2; [done | by left].
  - apply String.eqb_neq in E. rewrite IH.
    destruct (decide (k ∈ d.*1)) as [Hin | Hin].
    + rewrite !bool_decide_eq_true_2; [done | by right | done].
    + rewrite !bool_decide_eq_false_2; [done | | done].
      intros [?|?]%elem_of_cons; by subst.
Qed.

Lemma deep_merge_cons (base : list (string * Json.t)) (key : string) (value : Json.t)
    (rest : list (string * Json.t)) :
  _deep_merge base ((key, value) :: rest) = _deep_merge (merge_key base key value) rest.
Proof. reflexivity. Qed.

Lemma merge_key_get_eq (base : list (string * Json.t)) (key : string) (value : Json.t) :
  Dict.get key (merge_key base key value)
  = match Dict.get key base, value with
    | Some (Json.Obj b), Json.Obj o => Some (Json.Obj (_deep_merge b o))
    | _, _ => Some value
    end.
Proof.
  unfold merge_key.
  destruct (Dict.get key base) as [[| | | | |b]|], value; by rewrite dict_get_set_eq.
Qed.

Lemma merge_key_get_ne (base : list (string * Json.t)) (k key : string) (value : Json.t) :
  k <> key -> Dict.get k (merge_key base key value) = Dict.get k base.
Proof.
  intros Hne. unfold merge_key.
  destruct (Dict.get key base) as [[| | | | |b]|], value; by rewrite dict_get_set_ne.
Qed.

Lemma merge_key_keys (base : list (string * Json.t)) (key : string) (value : Json.t) :
  (merge_key base key value).*1
  = if bool_decide (key ∈ base.*1) then base.*1 else base.*1 ++ [key].
Proof.
  unfold merge_key.
  destruct (Dict.get key base) as [[| | | | |b]|], value; apply dict_set_keys.
Qed.

(** X20: what a merged configuration holds under a key, for a user
    configuration [override] (a dict: its keys are distinct).  A key the
    user does not set keeps its default; a key the user sets to a dict where
    the default is a dict holds the merge of the two, so the settings of a
    section that the user leaves out keep their defaults; any other key the
    user sets holds the user's value (a list, like [tag_rules], replaces the
    default list). *)
Theorem deep_merge_lookup (base override : list (string * Json.t)) (k : string) :
  NoDup override.*1 ->
  Dict.get k (_deep_merge base override)
  = match Dict.get k override with
    | None => Dict.get k base
    | Some v =>
        match Dict.get k base, v with
        | Some (Json.Obj b), Json.Obj o => Some (Json.Obj (_deep_merge b o))
        | _, _ => Some v
        end
    end.
Proof.
  revert base. induction override as [|[key value] rest IH]; intros base Hnd; [done|].
  apply NoDup_cons in Hnd as [Hkey Hnd].
  rewrite deep_merge_cons, IH by done. simpl Dict.get.
  destruct (String.eqb key k) eqn:E.
  - apply String.eqb_eq in E as <-.
    rewrite (dict_get_none key rest Hkey). apply merge_key_get_eq.
  - apply String.eqb_neq in E.
    rewrite (merge_key_get_ne base k key value) by done. reflexivity.
Qed.

Lemma deep_merge_lookup_witness :
  NoDup [("fetch", Json.Obj [("max_scrolls_likes", Json.Num 5)])].*1
  /\ Dict.get "fetch"
       (_deep_merge
          [("user_id", Json.Str "");
           ("fetch", Json.Obj [("max_scrolls_likes", Json.Num 50);
                               ("no_change_threshold", Json.Num 3)])]
          [("fetch", Json.Obj [("max_scrolls_likes", Json.Num 5)])])
     = Some (Json.Obj [("max_scrolls_likes", Json.Num 5);
                       ("no_change_threshold", Json.Num 3)]).
Proof.
  assert (NoDup [("fetch", Json.Obj [("max_scrolls_likes", Json.Num 5)])].*1) as Hnd.
  { apply NoDup_singleton. }
  split; [exact Hnd|].
  rewrite (deep_merge_lookup _ _ "fetch" Hnd). reflexivity.
Defined.

(** X21: merging never drops or moves a key of the defaults: the keys of
    the merged configuration are the keys of the defaults, in their order,
    followed by the keys that only the user configuration has. *)
Theorem deep_merge_keeps_keys (base override : list (string * Json.t)) :
  exists new : list string,
    (_deep_merge base override).*1 = base.*1 ++ new
    /\ forall k, k ∈ new <-> k ∈ override.*1 /\ k ∉ base.*1.
Proof.
  revert base. induction override as [|[key value] rest IH]; intros base.
  - exists []. split; [by rewrite app_nil_r|].
    intros k. split; [by intros ?%elem_of_nil | by intros [?%elem_of_nil _]].
  - rewrite deep_merge_cons. destruct (IH (merge_key base key value)) as (new & -> & Hnew).
    rewrite merge_key_keys. destruct (decide (key ∈ base.*1)) as [Hin | Hin].
    + rewrite bool_decide_eq_true_2 by done. exists new. split; [done|].
      intros k. rewrite Hnew, merge_key_keys, bool_decide_eq_true_2 by done.
      simpl. rewrite elem_of_cons. split.
      * intros [? ?]. split; [by right | done].
      * intros [[-> | ?] ?]; done.
    + rewrite bool_decide_eq_false_2 by done. exists (key :: new).
      split; [by rewrite <- app_assoc|].
      intros k. rewrite elem_of_cons, Hnew, merge_key_keys, bool_decide_eq_false_2 by done.
      simpl. rewrite elem_of_cons, elem_of_app, list_elem_of_singleton. split.
      * intros [-> | [? Hk]]; [split; [by left | done]|].
        split; [by right | intros ?; apply Hk; by left].
      * intros [[-> | ?] Hk]; [by left|].
        destruct (decide (k = key)) as [-> | Hne]; [by left | right].
        split; [done | by intros [? | ?]].
Qed.

(** ** The tag command of the review (reviewer.py) *)

Lemma not_contains_cons (c a : ascii) (s : string) :
  Py.contains (String c EmptyString) (String a s) = false ->
  Ascii.eqb a c = false /\ Py.contains (String c EmptyString) s = false.
Proof.
  cbn [Py.contains String.prefix]. intros H. apply orb_false_iff in H as [H1 H2].
  split; [|done]. destruct (ascii_dec c a) as [-> | Hne].
  - by destruct s.
  - apply Ascii.eqb_neq. congruence.
Qed.

Lemma split_char_nonempty (sep : ascii) (s : string) : Py.split_char sep s <> [].
Proof.
  induction s as [|c s IH]; [done|]. simpl.
  destruct (Ascii.eqb c sep); [done|]. by destruct (Py.split_char sep s).
Qed.

(** Splitting a text that starts with a piece without separator. *)
Lemma split_char_piece (sep : ascii) (p rest : string) :
  Py.contains (String sep EmptyString) p = false ->
  Py.split_char sep (p +:+ rest)
  = match Py.split_char sep rest with
    | q :: qs => (p +:+ q) :: qs
    | [] => [p]
    end.
Proof.
  induction p as [|c p IH]; intros Hfree.
  - rewrite app_empty. pose proof (split_char_nonempty sep rest).
    by destruct (Py.split_char sep rest).
  - apply not_contains_cons in Hfree as [Hc Hfree]. rewrite app_String.
    cbn [Py.split_char]. rewrite Hc, (IH Hfree).
    pose proof (split_char_nonempty sep rest).
    by destruct (Py.split_char sep rest).
Qed.

(** [",".join(pieces).split(",")] gives the pieces back. *)
Lemma split_comma_join (pieces : list string) :
  pieces <> [] ->
  Forall (fun p => Py.contains "," p = false) pieces ->
  Py.split_char "," (comma_join pieces) = pieces.
Proof.
  unfold comma_join. induction pieces as [|p ps IH]; [done|]. intros _ Hfree.
  apply Forall_cons in Hfree as [Hp Hps]. destruct ps as [|q ps].
  - simpl Json.join. rewrite <- (app_empty_r p) at 1.
    rewrite split_char_piece by done. simpl. by rewrite app_empty_r.
  - change (Json.join "," (p :: q :: ps))
      with (p +:+ String "," (Json.join "," (q :: ps))).
    rewrite split_char_piece by done.
    cbn [Py.split_char]. change (Ascii.eqb "," ",") with true. cbv iota.
    rewrite IH by done. by rewrite app_empty_r.
Qed.

Lemma elem_of_generic_parse_tags (ops : Str.ops) (arg t : string) :
  t ∈ Generic.parse_tags ops arg <->
  t <> EmptyString /\ exists p, p ∈ Py.split_char "," arg /\ t = Str.strip ops p.
Proof.
  unfold Generic.parse_tags. rewrite list_elem_of_fmap. split.
  - intros (p & -> & Hp). apply list_elem_of_In, filter_In in Hp as [Hin Hp].
    apply list_elem_of_In in Hin. split; [by destruct (Str.strip ops p) | eauto].
  - intros (Hne & p & Hin & ->). exists p. split; [done|].
    apply list_elem_of_In, filter_In. split; [by apply list_elem_of_In|].
    by destruct (Str.strip ops p).
Qed.

(** X22: the tag command.  When the command of the line
    ([line.strip().lower()]) starts with [t] or [tag] and a space, its
    argument is split at the commas; the tags of the current item become
    the old tags together with the stripped pieces that are not empty, in
    ascending order and without duplicates.  Nothing else changes: the
    position, the reviewed ids and the other fields of the item stay.  The
    tags are read off the lower-cased line. *)
Theorem tag_command_merges_tags (ops : Str.ops) (idx : nat) (item : Item.t)
    (line now : string) (s : Session) (pieces : list string) :
  Db.items (data s) !! idx = Some item ->
  Py.startswith (Generic.command ops line) "t "
  || Py.startswith (Generic.command ops line) "tag " = true ->
  Str.split_once ops (Generic.command ops line) !! 1 = Some (comma_join pieces) ->
  pieces <> [] ->
  Forall (fun p => Py.contains "," p = false) pieces ->
  exists tags : list string,
    Generic.review_turn ops idx line now s
    = Next (mkSession (pos s) (reviewed s)
              (put_item idx (Item.set_tags tags item) (data s)))
    /\ StronglySorted str_lt tags
    /\ (forall t, t ∈ tags <->
          t ∈ Item.tags item
          \/ (t <> EmptyString /\ exists p, p ∈ pieces /\ t = Str.strip ops p)).
Proof.
  intros Hitem Ht Harg Hne Hfree.
  exists (Py.sorted_set (Item.tags item ++ Generic.parse_tags ops (comma_join pieces))).
  split; [|split].
  - unfold Generic.review_turn. rewrite Hitem. fold (Generic.command ops line).
    assert (exists post, Generic.command ops line = String "t" post) as [post Hcmd].
    { apply orb_true_iff in Ht as [Ht | Ht];
        apply prefix_occurs in Ht as [post ->]; by eexists. }
    rewrite Hcmd in *.
    rewrite !bool_decide_eq_false_2;
      [| intros H; repeat (apply elem_of_cons in H as [H | H]; [done|]);
         by apply elem_of_nil in H ..].
    by rewrite Ht, Harg.
  - apply sorted_set_sorted.
  - intros t.
    rewrite elem_of_sorted_set, elem_of_app, elem_of_generic_parse_tags.
    by rewrite split_comma_join.
Qed.

Lemma tag_command_merges_tags_witness :
  exists tags : list string,
    Generic.review_turn Str.ascii 0 "  T  Papers, ,AI/LLM " "2024-05-02 10:01"
      (start_session Sample.config Sample.world)
    = Next (mkSession 0 ∅
              (put_item 0 (Item.set_tags tags (Sample.item "1" "foo one" []))
                 (data (start_session Sample.config Sample.world))))
    /\ StronglySorted str_lt tags
    /\ (forall t, t ∈ tags <->
          t ∈ []
          \/ (t <> EmptyString
              /\ exists p, p ∈ ["papers"; " "; "ai/llm"] /\ t = Py.strip p)).
Proof.
  apply (tag_command_merges_tags Str.ascii 0 (Sample.item "1" "foo one" [])
           "  T  Papers, ,AI/LLM " "2024-05-02 10:01"
           (start_session Sample.config Sample.world)
           ["papers"; " "; "ai/llm"]).
  - reflexivity.
  - reflexivity.
  - reflexivity.
  - discriminate.
  - repeat constructor.
Defined.
